(** * httpclient: a JSON convenience wrapper around net/http

    Shallow embedding of the Go package [httpclient] (client.go, options.go,
    default_client.go) and the properties its specification states.

    Go values live in a small store: pointers ([*int], the result sink) and
    map references ([map[string]string]) are locations, so that aliasing
    between an option's header map and the caller's map is kept.  The
    collaborators of the package (marshal and unmarshal functions, the
    transport) are function values; every invocation of one of them is
    recorded in the list of events of the call. *)

From Stdlib Require Import ZArith String Ascii Strings.Byte List.
From stdpp Require Import base option strings pretty gmap list.
From stdpp Require Import sorting.

Local Open Scope Z_scope.

(** ** Go values *)

Abbreviation loc := positive.

(** [error]: either a leaf error produced by a collaborator or by
    [fmt.Errorf] without [%w], or [fmt.Errorf(prefix + ": %w", cause)]. *)
Inductive error : Type :=
  | errors_New (msg : string)
  | fmt_Errorf (prefix : string) (cause : error).

Fixpoint Error (e : error) : string :=
  match e with
  | errors_New msg => msg
  | fmt_Errorf prefix cause => prefix +:+ ": " +:+ Error cause
  end.

Definition Unwrap (e : error) : option error :=
  match e with
  | errors_New _ => None
  | fmt_Errorf _ cause => Some cause
  end.

(** [wraps e target]: [target] is on the [Unwrap] chain of [e]
    (what [errors.Is] walks). *)
Inductive wraps : error -> error -> Prop :=
  | wraps_here e : wraps e e
  | wraps_next prefix cause target :
      wraps cause target -> wraps (fmt_Errorf prefix cause) target.

(** The dynamic values that reach the package through [interface{}]. *)
Inductive any : Type :=
  | Nil                                  (* the nil interface *)
  | Bytes (b : list byte)                (* []byte *)
  | Int (n : Z)                          (* int *)
  | Str (s : string)                     (* string *)
  | StrMap (m : gmap string string)      (* map[string]string *)
  | Ptr (l : loc)                        (* pointer to a variable of the caller *)
  | Func.                                (* a func value *)

Definition is_nil (v : any) : bool :=
  match v with Nil => true | _ => false end.

(** The store: variables reached through pointers, and map objects. *)
Record Heap : Type := mkHeap {
  vars : gmap loc any;
  maps : gmap loc (gmap string string)
}.

Definition store (p : loc) (v : any) (h : Heap) : Heap :=
  {| vars := <[p := v]> (vars h); maps := maps h |}.

(** [make(map[string]string)]: a new, empty map object. *)
Definition make_map (h : Heap) : loc * Heap :=
  let l := fresh (dom (maps h)) in
  (l, {| vars := vars h; maps := <[l := ∅]> (maps h) |}).

(** The entries of the map a (possibly nil) reference denotes; ranging
    over a nil map visits nothing. *)
Definition map_entries (m : option loc) (h : Heap) : gmap string string :=
  match m with
  | None => ∅
  | Some l => default ∅ (maps h !! l)
  end.

(** [m[key] = value] through the non-nil reference [m]. *)
Definition map_assign (m : loc) (key value : string) (h : Heap) : Heap :=
  {| vars := vars h;
     maps := <[m := <[key := value]> (map_entries (Some m) h)]> (maps h) |}.

(** ** The part of net/http the package uses *)

Module http.

(** [context.Context]; [None] is the nil interface. *)
Definition Context : Type := option positive.

Record Request : Type := mkRequest {
  Method : string;
  URL : string;
  Header : gmap string (list string);
  Body : list byte;
  Ctx : Context
}.

(** [ReadAll] is what [io.ReadAll(resp.Body)] returns. *)
Record Response : Type := mkResponse {
  StatusCode : Z;
  Status : string;
  ReadAll : list byte * option error
}.

(** [*http.Client], reduced to its one capability. *)
Record Client : Type := mkClient {
  Do : Request -> Response + error
}.

Definition MethodGet : string := "GET".
Definition MethodPost : string := "POST".
Definition MethodPut : string := "PUT".
Definition MethodPatch : string := "PATCH".
Definition MethodDelete : string := "DELETE".

End http.

(** What the platform decides: the standard encoders, the default
    transport, header-name canonicalisation, URL validation and the order in
    which a [range] loop visits a map. *)
Class Platform : Type := {
  json_Marshal : any -> Heap -> list byte * option error;
  json_Unmarshal : list byte -> any -> Heap -> option error * Heap;
  http_DefaultClient : http.Client;
  CanonicalMIMEHeaderKey : string -> string;
  url_Parse : string -> option error;
  map_range : gmap string string -> list (string * string);
  map_range_perm : forall m, map_range m ≡ₚ map_to_list m
}.

(** ** Calls: store passing with a log of collaborator invocations *)

(** An event is one invocation of a collaborator, with what it returned. *)
Inductive Event : Type :=
  | EvMarshal (v : any) (r : list byte * option error)
  | EvDo (t : http.Client) (req : http.Request) (r : http.Response + error)
  | EvUnmarshal (data : list byte) (v : any) (e : option error)
  | EvClose (resp : http.Response).

Definition Go (A : Type) : Type := Heap -> A * Heap * list Event.

Definition ret {A} (a : A) : Go A := fun h => (a, h, []).

Definition bind {A B} (m : Go A) (k : A -> Go B) : Go B :=
  fun h =>
    let '(a, h1, t1) := m h in
    let '(b, h2, t2) := k a h1 in
    (b, h2, t1 ++ t2).

Definition emit (e : Event) : Go unit := fun h => (tt, h, [e]).

Definition modify (f : Heap -> Heap) : Go unit := fun h => (tt, f h, []).

Notation "x <~ m ;; k" := (bind m (fun x => k))
  (at level 100, m at next level, right associativity).
Notation "m ;;; k" := (bind m (fun _ => k))
  (at level 100, right associativity).

Definition result_of {A} (r : A * Heap * list Event) : A := r.1.1.
Definition heap_of {A} (r : A * Heap * list Event) : Heap := r.1.2.
Definition events_of {A} (r : A * Heap * list Event) : list Event := r.2.

(** Projections of a log. *)
Definition dispatched (t : list Event) : list (http.Client * http.Request) :=
  omap (fun e => match e with EvDo c r _ => Some (c, r) | _ => None end) t.

Definition marshalled (t : list Event) : list any :=
  omap (fun e => match e with EvMarshal v _ => Some v | _ => None end) t.

Definition unmarshalled (t : list Event) : list (list byte * any) :=
  omap (fun e => match e with EvUnmarshal d v _ => Some (d, v) | _ => None end)
    t.

(** ** options.go *)

(** [Options]: [Headers] is a map reference, [Status] a [*int], [Client] a
    [*http.Client]; each may be nil. *)
Record Options : Type := mkOptions {
  Headers : option loc;
  Status : option loc;
  Options_Client : option http.Client
}.

(** [type Option func(o *Options)]: a function value acting on the options
    under construction and on the store. *)
Definition Option : Type := Options -> Heap -> Options * Heap.

Definition WithHeaders (headers : option loc) : Option :=
  fun o h =>
    ({| Headers := headers; Status := Status o;
        Options_Client := Options_Client o |}, h).

Definition WithHeader (key value : string) : Option :=
  fun o h =>
    let '(m, h1) :=
      match Headers o with
      | None => make_map h
      | Some m => (m, h)
      end in
    ({| Headers := Some m; Status := Status o;
        Options_Client := Options_Client o |},
     map_assign m key value h1).

Definition WithStatus (status : option loc) : Option :=
  fun o h =>
    ({| Headers := Headers o; Status := status;
        Options_Client := Options_Client o |}, h).

(** The options the package itself constructs. *)
Inductive builtin : Option -> Prop :=
  | builtin_WithHeaders headers : builtin (WithHeaders headers)
  | builtin_WithHeader key value : builtin (WithHeader key value)
  | builtin_WithStatus status : builtin (WithStatus status).

(** The loop of [buildOptions]: each option in turn, left to right. *)
Fixpoint apply_options (opts : list Option) (o : Options) (h : Heap)
  : Options * Heap :=
  match opts with
  | [] => (o, h)
  | opt :: rest => let '(o1, h1) := opt o h in apply_options rest o1 h1
  end.

Definition zero_Options : Options :=
  {| Headers := None; Status := None; Options_Client := None |}.

Definition buildOptions (opts : list Option) : Go Options :=
  fun h => (apply_options opts zero_Options h, []).

(** ** client.go *)

Record Client : Type := mkClient {
  Client_Client : option http.Client;
  MarshalFunc : option (any -> Heap -> list byte * option error);
  UnmarshalFunc : option (list byte -> any -> Heap -> option error * Heap)
}.

Section Package.

Context `{Platform}.

(** [http.Header.Set] and [http.Header.Get]. *)
Definition Header_Set (key value : string) (hd : gmap string (list string))
  : gmap string (list string) :=
  <[CanonicalMIMEHeaderKey key := [value]]> hd.

Definition Header_Get (hd : gmap string (list string)) (key : string)
  : string :=
  match hd !! CanonicalMIMEHeaderKey key with
  | Some (v :: _) => v
  | _ => EmptyString
  end.

Definition set_Header (key value : string) (req : http.Request)
  : http.Request :=
  {| http.Method := http.Method req; http.URL := http.URL req;
     http.Header := Header_Set key value (http.Header req);
     http.Body := http.Body req; http.Ctx := http.Ctx req |}.

(** [http.NewRequestWithContext] for the verbs of this package (all of
    them valid method tokens): it refuses a nil context and a URL that
    does not parse, and otherwise returns a request without headers. *)
Definition NewRequestWithContext (ctx : http.Context) (method url : string)
    (body : list byte) : http.Request + error :=
  match ctx with
  | None => inr (errors_New "net/http: nil Context")
  | Some _ =>
      match url_Parse url with
      | Some e => inr e
      | None =>
          inl {| http.Method := method; http.URL := url; http.Header := ∅;
                 http.Body := body; http.Ctx := ctx |}
      end
  end.

Definition marshal (c : Client) (v : any) : Go (list byte * option error) :=
  fun h =>
    let r :=
      match MarshalFunc c with
      | Some f => f v h
      | None => json_Marshal v h
      end in
    (r, h, [EvMarshal v r]).

Definition unmarshal (c : Client) (data : list byte) (v : any)
  : Go (option error) :=
  fun h =>
    let '(e, h1) :=
      match UnmarshalFunc c with
      | Some f => f data v h
      | None => json_Unmarshal data v h
      end in
    (e, h1, [EvUnmarshal data v e]).

(** The [for key, value := range options.Headers] loop. *)
Definition apply_headers (entries : list (string * string))
    (req : http.Request) : http.Request :=
  fold_left (fun r kv => set_Header kv.1 kv.2 r) entries req.

Definition buildRequest (c : Client) (ctx : http.Context)
    (method url : string) (body : any) (options : Options)
  : Go (http.Request + error) :=
  mr <~ (if is_nil body then ret ([], None) else marshal c body) ;;
  match mr with
  | (_, Some err) =>
      ret (inr (fmt_Errorf "failed to marshal request body" err))
  | (bodyBytes, None) =>
      match NewRequestWithContext ctx method url bodyBytes with
      | inr err => ret (inr (fmt_Errorf "failed to create request" err))
      | inl req =>
          fun h =>
            (inl (apply_headers
                    (map_range (map_entries (Headers options) h)) req),
             h, [])
      end
  end.

Definition getClient (c : Client) (options : Options) : http.Client :=
  match Options_Client options with
  | Some t => t
  | None =>
      match Client_Client c with
      | None => http_DefaultClient
      | Some t => t
      end
  end.

(** [client.Do(req)]. *)
Definition client_Do (t : http.Client) (req : http.Request)
  : Go (http.Response + error) :=
  fun h => (http.Do t req, h, [EvDo t req (http.Do t req)]).

(** The deferred [resp.Body.Close()]. *)
Definition Body_Close (resp : http.Response) : Go unit :=
  emit (EvClose resp).

(** The first statement of [parseResponse]:
    [if options.Status != nil { *options.Status = resp.StatusCode }]. *)
Definition capture_status (resp : http.Response) (options : Options)
  : Go unit :=
  match Status options with
  | Some p => modify (store p (Int (http.StatusCode resp)))
  | None => ret tt
  end.

Definition parseResponse (c : Client) (resp : http.Response) (result : any)
    (options : Options) : Go (option error) :=
  capture_status resp options ;;;
  if bool_decide (Status options = None) && (400 <=? http.StatusCode resp)
  then ret (Some (errors_New ("HTTP error: " +:+ http.Status resp)))
  else
    match http.ReadAll resp with
    | (_, Some err) =>
        ret (Some (fmt_Errorf "failed to read response body" err))
    | (body, None) =>
        if is_nil result then ret None
        else
          e <~ unmarshal c body result ;;
          match e with
          | Some err =>
              if bool_decide (Status options <> None)
                 && (400 <=? http.StatusCode resp)
              then ret None
              else ret (Some (fmt_Errorf
                                "failed to unmarshal JSON response" err))
          | None => ret None
          end
    end.

(** The four verbs of client.go. *)
Definition Client_Get (c : Client) (ctx : http.Context) (url : string)
    (result : any) (opts : list Option) : Go (option error) :=
  options <~ buildOptions opts ;;
  r <~ buildRequest c ctx http.MethodGet url Nil options ;;
  match r with
  | inr err => ret (Some (fmt_Errorf "failed to create GET request" err))
  | inl req =>
      let client := getClient c options in
      d <~ client_Do client req ;;
      match d with
      | inr err => ret (Some (fmt_Errorf "failed to make GET request" err))
      | inl resp =>
          e <~ parseResponse c resp result options ;;
          Body_Close resp ;;;
          ret e
      end
  end.

Definition Client_Post (c : Client) (ctx : http.Context) (url : string)
    (body result : any) (opts : list Option) : Go (option error) :=
  options <~ buildOptions opts ;;
  r <~ buildRequest c ctx http.MethodPost url body options ;;
  match r with
  | inr err => ret (Some (fmt_Errorf "failed to create POST request" err))
  | inl req0 =>
      let req := set_Header "Content-Type" "application/json" req0 in
      let client := getClient c options in
      d <~ client_Do client req ;;
      match d with
      | inr err => ret (Some (fmt_Errorf "failed to make POST request" err))
      | inl resp =>
          e <~ parseResponse c resp result options ;;
          Body_Close resp ;;;
          ret e
      end
  end.

Definition Client_Patch (c : Client) (ctx : http.Context) (url : string)
    (body result : any) (opts : list Option) : Go (option error) :=
  options <~ buildOptions opts ;;
  r <~ buildRequest c ctx http.MethodPatch url body options ;;
  match r with
  | inr err => ret (Some (fmt_Errorf "failed to create PATCH request" err))
  | inl req0 =>
      let req := set_Header "Content-Type" "application/json" req0 in
      let client := getClient c options in
      d <~ client_Do client req ;;
      match d with
      | inr err => ret (Some (fmt_Errorf "failed to make PATCH request" err))
      | inl resp =>
          e <~ parseResponse c resp result options ;;
          Body_Close resp ;;;
          ret e
      end
  end.

Definition Client_Delete (c : Client) (ctx : http.Context) (url : string)
    (result : any) (opts : list Option) : Go (option error) :=
  options <~ buildOptions opts ;;
  r <~ buildRequest c ctx http.MethodDelete url Nil options ;;
  match r with
  | inr err => ret (Some (fmt_Errorf "failed to create DELETE request" err))
  | inl req =>
      let client := getClient c options in
      d <~ client_Do client req ;;
      match d with
      | inr err =>
          ret (Some (fmt_Errorf "failed to make DELETE request" err))
      | inl resp =>
          e <~ parseResponse c resp result options ;;
          Body_Close resp ;;;
          ret e
      end
  end.

(** Modelled from the spec: the request construction of the method [Put],
    which client.go does not contain.  Steps 2 and 3 of the specification:
    a body whose runtime type is a raw byte sequence is the wire payload
    as it is, with no marshal invocation; any other body goes through the
    marshal function, whose failure aborts the construction; the request
    then gets the verb, the URL, the payload, the context and the headers
    of the options, each set.  Apart from the []byte case these are the
    steps of [buildRequest]. *)
Definition buildRequest_passthrough (c : Client) (ctx : http.Context)
    (method url : string) (body : any) (options : Options)
  : Go (http.Request + error) :=
  match body with
  | Bytes b =>
      match NewRequestWithContext ctx method url b with
      | inr err => ret (inr (fmt_Errorf "failed to create request" err))
      | inl req =>
          fun h =>
            (inl (apply_headers
                    (map_range (map_entries (Headers options) h)) req),
             h, [])
      end
  | _ => buildRequest c ctx method url body options
  end.

(** Modelled from the spec: the method [Put] of [Client], which
    default_client.go calls and client.go does not contain.  The
    specification gives it the signature
    [PUT(ctx, url, body, &result, options...) -> error] and the steps of
    the other verbs (fold the options, build the request from the body, a
    []byte body being the payload as it is, select the transport, dispatch,
    interpret the response), with the verb PUT, a body, and no forced
    Content-Type (that is for POST and PATCH only); its errors name the
    verb like those of the other methods. *)
Definition Client_Put (c : Client) (ctx : http.Context) (url : string)
    (body result : any) (opts : list Option) : Go (option error) :=
  options <~ buildOptions opts ;;
  r <~ buildRequest_passthrough c ctx http.MethodPut url body options ;;
  match r with
  | inr err => ret (Some (fmt_Errorf "failed to create PUT request" err))
  | inl req =>
      let client := getClient c options in
      d <~ client_Do client req ;;
      match d with
      | inr err => ret (Some (fmt_Errorf "failed to make PUT request" err))
      | inl resp =>
          e <~ parseResponse c resp result options ;;
          Body_Close resp ;;;
          ret e
      end
  end.

(** ** default_client.go

    The package-level functions, in the version that takes a context like
    the methods of client.go (an older copy without contexts and without
    [Put] is superseded by it). *)

Definition defaultClient : Client :=
  {| Client_Client := None; MarshalFunc := None; UnmarshalFunc := None |}.

Definition Get (ctx : http.Context) (url : string) (result : any)
    (opts : list Option) : Go (option error) :=
  Client_Get defaultClient ctx url result opts.

Definition Post (ctx : http.Context) (url : string) (body result : any)
    (opts : list Option) : Go (option error) :=
  Client_Post defaultClient ctx url body result opts.

Definition Patch (ctx : http.Context) (url : string) (body result : any)
    (opts : list Option) : Go (option error) :=
  Client_Patch defaultClient ctx url body result opts.

Definition Put (ctx : http.Context) (url : string) (body result : any)
    (opts : list Option) : Go (option error) :=
  Client_Put defaultClient ctx url body result opts.

Definition Delete (ctx : http.Context) (url : string) (result : any)
    (opts : list Option) : Go (option error) :=
  Client_Delete defaultClient ctx url result opts.

End Package.


(** ** The five verbs as one family

    [call] selects a method by its verb, so that a property of "every call"
    is one statement; [verb_call] is the shape the five methods share. *)

Inductive Verb : Type := GET | POST | PUT | PATCH | DELETE.

Definition verb_name (v : Verb) : string :=
  match v with
  | GET => http.MethodGet
  | POST => http.MethodPost
  | PUT => http.MethodPut
  | PATCH => http.MethodPatch
  | DELETE => http.MethodDelete
  end.

(** The verbs whose method sets Content-Type after building the request. *)
Definition forces_content_type (v : Verb) : bool :=
  match v with
  | POST | PATCH => true
  | _ => false
  end.

(** The body a method hands to [buildRequest]: GET and DELETE pass nil. *)
Definition body_of (v : Verb) (body : any) : any :=
  match v with
  | GET | DELETE => Nil
  | _ => body
  end.

(** The one case in which the modelled [Put] leaves the steps of
    [buildRequest]: a []byte body, which is the payload as it is. *)
Definition is_raw (v : Verb) (body : any) : bool :=
  match v, body with
  | PUT, Bytes _ => true
  | _, _ => false
  end.

Section Calls.

Context `{Platform}.

Definition call (v : Verb) (c : Client) (ctx : http.Context) (url : string)
    (body result : any) (opts : list Option) : Go (option error) :=
  match v with
  | GET => Client_Get c ctx url result opts
  | POST => Client_Post c ctx url body result opts
  | PUT => Client_Put c ctx url body result opts
  | PATCH => Client_Patch c ctx url body result opts
  | DELETE => Client_Delete c ctx url result opts
  end.

Definition verb_call (c : Client) (ctx : http.Context) (verb url : string)
    (body result : any) (opts : list Option) (force : bool)
  : Go (option error) :=
  options <~ buildOptions opts ;;
  r <~ buildRequest c ctx verb url body options ;;
  match r with
  | inr err =>
      ret (Some (fmt_Errorf ("failed to create " +:+ verb +:+ " request")
                   err))
  | inl req0 =>
      let req :=
        if force then set_Header "Content-Type" "application/json" req0
        else req0 in
      let client := getClient c options in
      d <~ client_Do client req ;;
      match d with
      | inr err =>
          ret (Some (fmt_Errorf ("failed to make " +:+ verb +:+ " request")
                       err))
      | inl resp =>
          e <~ parseResponse c resp result options ;;
          Body_Close resp ;;;
          ret e
      end
  end.

(** The options a call folds, the store it leaves, and the request the
    call then builds from them. *)
Definition options_of (opts : list Option) (h : Heap) : Options :=
  (apply_options opts zero_Options h).1.

Definition heap_after_options (opts : list Option) (h : Heap) : Heap :=
  (apply_options opts zero_Options h).2.

Definition built (v : Verb) (c : Client) (ctx : http.Context) (url : string)
    (body : any) (opts : list Option) (h : Heap) : http.Request + error :=
  result_of (buildRequest c ctx (verb_name v) url (body_of v body)
               (options_of opts h) (heap_after_options opts h)).

(** The header set a list of map entries produces on a fresh request. *)
Definition headers_from (entries : list (string * string))
  : gmap string (list string) :=
  fold_left (fun hd kv => Header_Set kv.1 kv.2 hd) entries ∅.

End Calls.

(** ** A platform to run the model on

    A fragment of the Go platform, enough to evaluate calls: encoding/json
    on nil, []byte (standard base64 in a JSON string), int, plain strings
    and func values (unsupported); textproto's canonical header keys; a URL
    check; and a default transport that answers for three URLs. *)

Module Sample.

Local Open Scope N_scope.

Definition bytes_of (s : string) : list byte := list_byte_of_string s.

Definition b64_alphabet : list byte :=
  bytes_of
    "ABCDEFGHIJKLMNOPQRSTUVWXYZabcdefghijklmnopqrstuvwxyz0123456789+/".

Definition b64 (n : N) : byte := nth (N.to_nat n) b64_alphabet x3d.

Fixpoint base64 (l : list byte) : list byte :=
  match l with
  | [] => []
  | [a] =>
      let n := Byte.to_N a in
      [b64 (n / 4); b64 ((n mod 4) * 16); x3d; x3d]
  | [a; b] =>
      let n := Byte.to_N a in
      let m := Byte.to_N b in
      [b64 (n / 4); b64 ((n mod 4) * 16 + m / 16); b64 ((m mod 16) * 4);
       x3d]
  | a :: b :: c :: rest =>
      let n := Byte.to_N a in
      let m := Byte.to_N b in
      let k := Byte.to_N c in
      b64 (n / 4) :: b64 ((n mod 4) * 16 + m / 16)
        :: b64 ((m mod 16) * 4 + k / 64) :: b64 (k mod 64) :: base64 rest
  end.

Definition quoted (b : list byte) : list byte := x22 :: b ++ [x22].

Definition plain (b : byte) : bool :=
  let n := Byte.to_N b in
  (32 <=? n) && (n <? 127) && negb (n =? 34) && negb (n =? 92)
  && negb (n =? 60) && negb (n =? 62) && negb (n =? 38).

Definition digit (b : byte) : bool :=
  let n := Byte.to_N b in (48 <=? n) && (n <=? 57).

Definition Marshal (v : any) (h : Heap) : list byte * option error :=
  match v with
  | Nil => (bytes_of "null", None)
  | Bytes b => (quoted (base64 b), None)
  | Int n => (bytes_of (pretty n), None)
  | Str s =>
      if forallb plain (bytes_of s) then (quoted (bytes_of s), None)
      else ([], Some (errors_New "sample: string needs escaping"))
  | Func => ([], Some (errors_New "json: unsupported type: func()"))
  | _ => ([], Some (errors_New "sample: value outside the fragment"))
  end.

Definition number (b : list byte) : Z :=
  fold_left (fun acc d => (10 * acc + Z.of_N (Byte.to_N d - 48))%Z) b 0%Z.

Definition decode (data : list byte) : option any :=
  match data with
  | [] => None
  | q :: rest =>
      if digit q && forallb digit rest then Some (Int (number data))
      else
        match reverse rest with
        | q' :: inner =>
            if (Byte.to_N q =? 34) && (Byte.to_N q' =? 34)
               && forallb plain inner
            then Some (Str (string_of_list_byte (reverse inner)))
            else None
        | [] => None
        end
  end.

Definition Unmarshal (data : list byte) (v : any) (h : Heap)
  : option error * Heap :=
  match v with
  | Ptr l =>
      match decode data with
      | Some x => (None, store l x h)
      | None => (Some (errors_New "invalid character in JSON input"), h)
      end
  | _ => (Some (errors_New "json: Unmarshal(non-pointer)"), h)
  end.

Definition is_lower (c : ascii) : bool :=
  let n := N_of_ascii c in (97 <=? n) && (n <=? 122).

Definition is_upper (c : ascii) : bool :=
  let n := N_of_ascii c in (65 <=? n) && (n <=? 90).

Definition is_digit (c : ascii) : bool :=
  let n := N_of_ascii c in (48 <=? n) && (n <=? 57).

Definition validHeaderFieldByte (c : ascii) : bool :=
  is_lower c || is_upper c || is_digit c
  || existsb (Ascii.eqb c) (list_ascii_of_string "!#$%&'*+-.^_`|~").

Definition set_case (upper : bool) (c : ascii) : ascii :=
  if upper && is_lower c then ascii_of_N (N_of_ascii c - 32)
  else if negb upper && is_upper c then ascii_of_N (N_of_ascii c + 32)
  else c.

Fixpoint canonical (upper : bool) (s : string) : string :=
  match s with
  | EmptyString => EmptyString
  | String c rest =>
      String (set_case upper c) (canonical (Ascii.eqb c "-") rest)
  end.

Definition canonical_key (s : string) : string :=
  if forallb validHeaderFieldByte (list_ascii_of_string s)
  then canonical true s else s.

Definition control (c : ascii) : bool :=
  let n := N_of_ascii c in (n <? 32) || (n =? 127).

Definition Parse (url : string) : option error :=
  if existsb control (list_ascii_of_string url)
  then Some (errors_New "net/url: invalid control character in URL")
  else None.

Definition ok (body : list byte) : http.Response :=
  {| http.StatusCode := 200; http.Status := "200 OK";
     http.ReadAll := (body, None) |}.

Definition not_found : http.Response :=
  {| http.StatusCode := 404; http.Status := "404 Not Found";
     http.ReadAll := (bytes_of "not found", None) |}.

Definition server (req : http.Request) : http.Response + error :=
  if String.eqb (http.URL req) "https://example/pokemon/pikachu" then
    inl (ok (quoted (bytes_of "pikachu")))
  else if String.eqb (http.URL req) "https://example/missing" then
    inl not_found
  else if String.eqb (http.URL req) "https://example/echo" then
    inl (ok (http.Body req))
  else inr (errors_New "dial tcp: lookup failed: no such host").

Definition DefaultClient : http.Client := {| http.Do := server |}.

Definition platform : Platform :=
  {| json_Marshal := Marshal;
     json_Unmarshal := Unmarshal;
     http_DefaultClient := DefaultClient;
     CanonicalMIMEHeaderKey := canonical_key;
     url_Parse := Parse;
     map_range := map_to_list;
     map_range_perm := fun m => reflexivity (map_to_list m) |}.

Definition Background : http.Context := Some 1%positive.

Definition empty_heap : Heap := {| vars := ∅; maps := ∅ |}.

(** A second transport, and an option of the caller's own that installs a
    transport for one call (the field [Client] of [Options] is exported). *)
Definition teapot : http.Client :=
  {| http.Do := fun _ =>
       inl {| http.StatusCode := 418; http.Status := "418 I'm a teapot";
              http.ReadAll := ([], None) |} |}.

Definition unreachable : http.Client :=
  {| http.Do := fun _ => inr (errors_New "connection refused") |}.

Definition WithClient (t : http.Client) : Option :=
  fun o h =>
    ({| Headers := Headers o; Status := Status o;
        Options_Client := Some t |}, h).

(** A store of the caller holding one map object, [{"B": "2"}]. *)
Definition caller_map : loc := 7%positive.

Definition caller_heap : Heap :=
  {| vars := ∅; maps := {[caller_map := {["B" := "2"]}]} |}.

(** The request a verb builds for a URL, a payload and a header set. *)
Definition request (verb url : string) (payload : list byte)
    (hd : gmap string (list string)) : http.Request :=
  {| http.Method := verb; http.URL := url; http.Header := hd;
     http.Body := payload; http.Ctx := Background |}.

(** A transport whose response breaks off while its body is read. *)
Definition cut_short : http.Response :=
  {| http.StatusCode := 200; http.Status := "200 OK";
     http.ReadAll := (bytes_of "pika", Some (errors_New "unexpected EOF")) |}.

Definition flaky : http.Client := {| http.Do := fun _ => inl cut_short |}.

(** The bytes of [{"a":1}] and of their JSON encoding as a []byte. *)
Definition raw_json : list byte := [x7b; x22; x61; x22; x3a; x31; x7d].

Definition raw_json_marshalled : list byte :=
  quoted (bytes_of "eyJhIjoxfQ==").

End Sample.

(** ** Further readings of a log and of an option list *)

(** The responses a log received from a transport, and the responses whose
    body it closed. *)
Definition received (t : list Event) : list http.Response :=
  omap (fun e => match e with EvDo _ _ (inl resp) => Some resp | _ => None end)
    t.

Definition closed (t : list Event) : list http.Response :=
  omap (fun e => match e with EvClose resp => Some resp | _ => None end) t.

(** The step of a call an event belongs to. *)
Definition phase (e : Event) : nat :=
  match e with
  | EvMarshal _ _ => 0%nat
  | EvDo _ _ _ => 1%nat
  | EvUnmarshal _ _ _ => 2%nat
  | EvClose _ => 3%nat
  end.

(** The options of the package that keep the header map of the options
    under its current reference: all but [WithHeaders]. *)
Inductive keeps_reference : Option -> Prop :=
  | keeps_WithHeader key value : keeps_reference (WithHeader key value)
  | keeps_WithStatus status : keeps_reference (WithStatus status).

(** The five shapes of the errors the methods of client.go construct. *)
Inductive call_error (v : Verb) : error -> Prop :=
  | error_create cause :
      call_error v
        (fmt_Errorf ("failed to create " +:+ verb_name v +:+ " request") cause)
  | error_make cause :
      call_error v
        (fmt_Errorf ("failed to make " +:+ verb_name v +:+ " request") cause)
  | error_status status :
      call_error v (errors_New ("HTTP error: " +:+ status))
  | error_read cause :
      call_error v (fmt_Errorf "failed to read response body" cause)
  | error_decode cause :
      call_error v (fmt_Errorf "failed to unmarshal JSON response" cause).

(** * Properties *)

Section Properties.

Context `{Platform}.

(** ** Logs *)

Lemma dispatched_app t1 t2 :
  dispatched (t1 ++ t2) = dispatched t1 ++ dispatched t2.
Proof. apply omap_app. Qed.

Lemma marshalled_app t1 t2 :
  marshalled (t1 ++ t2) = marshalled t1 ++ marshalled t2.
Proof. apply omap_app. Qed.

Lemma unmarshalled_app t1 t2 :
  unmarshalled (t1 ++ t2) = unmarshalled t1 ++ unmarshalled t2.
Proof. apply omap_app. Qed.

(** ** Every method is an instance of the common shape *)

Lemma call_verb_call v c ctx url body result opts :
  v <> PUT ->
  call v c ctx url body result opts =
  verb_call c ctx (verb_name v) url (body_of v body) result opts
    (forces_content_type v).
Proof. intros Hv. destruct v; try reflexivity. contradiction. Qed.

(** The modelled [Put] differs from the common shape at a []byte body
    only. *)
Lemma call_shape_or_raw v c ctx url body result opts :
  call v c ctx url body result opts =
    verb_call c ctx (verb_name v) url (body_of v body) result opts
      (forces_content_type v)
  \/ exists b, v = PUT /\ body = Bytes b.
Proof.
  destruct v; try (left; reflexivity).
  destruct body; try (left; reflexivity). right. eauto.
Qed.

(** ** Building the request *)

Lemma buildRequest_heap c ctx method url body o h :
  heap_of (buildRequest c ctx method url body o h) = h.
Proof.
  unfold buildRequest, bind, marshal, ret, heap_of.
  destruct (is_nil body); simpl.
  - destruct (NewRequestWithContext ctx method url []); reflexivity.
  - destruct (match MarshalFunc c with
              | Some f => f body h
              | None => json_Marshal body h
              end) as [bs [e|]]; simpl; [reflexivity|].
    destruct (NewRequestWithContext ctx method url bs); reflexivity.
Qed.

Lemma buildRequest_events c ctx method url body o h :
  events_of (buildRequest c ctx method url body o h) =
  if is_nil body then []
  else [EvMarshal body (result_of (marshal c body h))].
Proof.
  unfold buildRequest, bind, marshal, ret, events_of, result_of.
  destruct (is_nil body); simpl.
  - destruct (NewRequestWithContext ctx method url []); reflexivity.
  - destruct (match MarshalFunc c with
              | Some f => f body h
              | None => json_Marshal body h
              end) as [bs [e|]]; simpl; [reflexivity|].
    destruct (NewRequestWithContext ctx method url bs); reflexivity.
Qed.

Lemma buildRequest_marshal_error c ctx method url body o h bs e :
  is_nil body = false ->
  result_of (marshal c body h) = (bs, Some e) ->
  result_of (buildRequest c ctx method url body o h) =
  inr (fmt_Errorf "failed to marshal request body" e).
Proof.
  unfold buildRequest, bind, marshal, ret, result_of. simpl.
  intros -> ->. reflexivity.
Qed.

Lemma apply_headers_fields entries req :
  http.Method (apply_headers entries req) = http.Method req
  /\ http.URL (apply_headers entries req) = http.URL req
  /\ http.Body (apply_headers entries req) = http.Body req
  /\ http.Ctx (apply_headers entries req) = http.Ctx req
  /\ http.Header (apply_headers entries req) =
     fold_left (fun hd kv => Header_Set kv.1 kv.2 hd) entries
       (http.Header req).
Proof.
  revert req. induction entries as [|[k v] entries IH]; intros req.
  - repeat split.
  - simpl. destruct (IH (set_Header k v req)) as (-> & -> & -> & -> & ->).
    repeat split.
Qed.

(** A request that was built carries the verb, the URL, the context, the
    marshalled body (nothing for a nil body) and exactly the headers of
    the options. *)
Lemma buildRequest_ok c ctx method url body o h req :
  result_of (buildRequest c ctx method url body o h) = inl req ->
  http.Method req = method
  /\ http.URL req = url
  /\ http.Ctx req = ctx
  /\ http.Body req =
     (if is_nil body then [] else (result_of (marshal c body h)).1)
  /\ http.Header req = headers_from (map_range (map_entries (Headers o) h)).
Proof.
  unfold buildRequest, bind, marshal, ret, result_of, headers_from.
  destruct (is_nil body); simpl.
  - unfold NewRequestWithContext.
    destruct ctx as [i|]; [|discriminate].
    destruct (url_Parse url); [discriminate|]. simpl.
    intros [= <-].
    destruct (apply_headers_fields
                (map_range (map_entries (Headers o) h))
                (http.mkRequest method url ∅ [] (Some i)))
      as (-> & -> & -> & -> & ->).
    repeat split.
  - destruct (match MarshalFunc c with
              | Some f => f body h
              | None => json_Marshal body h
              end) as [bs [e|]]; simpl; [discriminate|].
    unfold NewRequestWithContext.
    destruct ctx as [i|]; [|discriminate].
    destruct (url_Parse url); [discriminate|]. simpl.
    intros [= <-].
    destruct (apply_headers_fields
                (map_range (map_entries (Headers o) h))
                (http.mkRequest method url ∅ bs (Some i)))
      as (-> & -> & -> & -> & ->).
    repeat split.
Qed.

(** ** Interpreting the response *)

Lemma capture_status_run resp o h :
  capture_status resp o h =
  (tt,
   match Status o with
   | Some p => store p (Int (http.StatusCode resp)) h
   | None => h
   end, []).
Proof. unfold capture_status. destruct (Status o); reflexivity. Qed.

Lemma unmarshal_events c data v h :
  events_of (unmarshal c data v h) =
  [EvUnmarshal data v (result_of (unmarshal c data v h))].
Proof.
  unfold unmarshal, events_of, result_of.
  destruct (match UnmarshalFunc c with
            | Some f => f data v h
            | None => json_Unmarshal data v h
            end); reflexivity.
Qed.

Lemma parseResponse_run c resp result o h :
  parseResponse c resp result o h =
  let h1 := heap_of (capture_status resp o h) in
  if bool_decide (Status o = None) && (400 <=? http.StatusCode resp)
  then (Some (errors_New ("HTTP error: " +:+ http.Status resp)), h1, [])
  else
    match http.ReadAll resp with
    | (_, Some err) =>
        (Some (fmt_Errorf "failed to read response body" err), h1, [])
    | (body, None) =>
        if is_nil result then (None, h1, [])
        else
          let r := unmarshal c body result h1 in
          (match result_of r with
           | Some err =>
               if bool_decide (Status o <> None)
                  && (400 <=? http.StatusCode resp)
               then None
               else Some (fmt_Errorf "failed to unmarshal JSON response"
                            err)
           | None => None
           end, heap_of r, [EvUnmarshal body result (result_of r)])
    end.
Proof.
  unfold parseResponse, bind. rewrite capture_status_run. simpl.
  destruct (bool_decide (Status o = None) && (400 <=? http.StatusCode resp));
    [reflexivity|].
  destruct (http.ReadAll resp) as [body [err|]]; [reflexivity|].
  destruct (is_nil result); [reflexivity|].
  pose proof (unmarshal_events c body result
                (match Status o with
                 | Some p => store p (Int (http.StatusCode resp)) h
                 | None => h
                 end)) as Hev.
  unfold heap_of, result_of, events_of in *.
  destruct (unmarshal c body result _) as [[e h2] t]. simpl in *. subst t.
  destruct e as [err|]; [|reflexivity].
  destruct (bool_decide (Status o <> None)
            && (400 <=? http.StatusCode resp)); reflexivity.
Qed.

Lemma parseResponse_no_dispatch c resp result o h :
  dispatched (events_of (parseResponse c resp result o h)) = []
  /\ marshalled (events_of (parseResponse c resp result o h)) = [].
Proof.
  rewrite parseResponse_run. cbv zeta.
  destruct (bool_decide (Status o = None) && (400 <=? http.StatusCode resp));
    [split; reflexivity|].
  destruct (http.ReadAll resp) as [body [err|]]; [split; reflexivity|].
  destruct (is_nil result); split; reflexivity.
Qed.

(** ** The run of a call, step by step *)

Lemma verb_call_run c ctx verb url body result opts force h :
  verb_call c ctx verb url body result opts force h =
  let o := options_of opts h in
  let h1 := heap_after_options opts h in
  let t1 := events_of (buildRequest c ctx verb url body o h1) in
  match result_of (buildRequest c ctx verb url body o h1) with
  | inr err =>
      (Some (fmt_Errorf ("failed to create " +:+ verb +:+ " request") err),
       h1, t1)
  | inl req0 =>
      let req :=
        if force then set_Header "Content-Type" "application/json" req0
        else req0 in
      let t := getClient c o in
      match http.Do t req with
      | inr err =>
          (Some (fmt_Errorf ("failed to make " +:+ verb +:+ " request")
                   err),
           h1, t1 ++ [EvDo t req (inr err)])
      | inl resp =>
          let r := parseResponse c resp result o h1 in
          (result_of r, heap_of r,
           t1 ++ EvDo t req (inl resp) :: events_of r ++ [EvClose resp])
      end
  end.
Proof.
  unfold verb_call, buildOptions, options_of, heap_after_options.
  unfold bind at 1.
  destruct (apply_options opts zero_Options h) as [o h1]. simpl.
  pose proof (buildRequest_heap c ctx verb url body o h1) as Hheap.
  unfold bind, heap_of, events_of, result_of in *.
  destruct (buildRequest c ctx verb url body o h1) as [[r h2] t1].
  simpl in *. subst h2.
  destruct r as [req0|err]; simpl.
  - unfold client_Do.
    destruct (http.Do (getClient c o) _) as [resp|err]; simpl.
    + destruct (parseResponse c resp result o h1) as [[e h3] t2].
      reflexivity.
    + reflexivity.
  - rewrite ?app_nil_r. reflexivity.
Qed.

Lemma buildRequest_event c ctx method url body o h ev :
  ev ∈ events_of (buildRequest c ctx method url body o h) ->
  ev = EvMarshal body (result_of (marshal c body h)) /\ is_nil body = false.
Proof.
  rewrite buildRequest_events. destruct (is_nil body).
  - intros Hin. inversion Hin.
  - intros Hin%list_elem_of_singleton. split; [exact Hin|reflexivity].
Qed.

Lemma parseResponse_event c resp result o h ev :
  ev ∈ events_of (parseResponse c resp result o h) ->
  let h1 := heap_of (capture_status resp o h) in
  let body := (http.ReadAll resp).1 in
  ev = EvUnmarshal body result (result_of (unmarshal c body result h1))
  /\ is_nil result = false
  /\ (http.ReadAll resp).2 = None
  /\ bool_decide (Status o = None) && (400 <=? http.StatusCode resp) = false.
Proof.
  rewrite parseResponse_run. cbv zeta.
  destruct (bool_decide (Status o = None) && (400 <=? http.StatusCode resp));
    [intros Hin; inversion Hin|].
  destruct (http.ReadAll resp) as [body [err|]];
    [intros Hin; inversion Hin|].
  destruct (is_nil result); [intros Hin; inversion Hin|].
  intros Hin%list_elem_of_singleton. simpl. repeat split. exact Hin.
Qed.

(** A response that a call received is the answer of the selected
    transport to the request the call built, and the rest of the call is
    the interpretation of that response. *)
Lemma verb_call_response c ctx verb url body result opts force h t req resp :
  EvDo t req (inl resp)
    ∈ events_of (verb_call c ctx verb url body result opts force h) ->
  let o := options_of opts h in
  let h1 := heap_after_options opts h in
  let r := parseResponse c resp result o h1 in
  exists req0,
    result_of (buildRequest c ctx verb url body o h1) = inl req0
    /\ req = (if force
              then set_Header "Content-Type" "application/json" req0
              else req0)
    /\ t = getClient c o
    /\ http.Do t req = inl resp
    /\ verb_call c ctx verb url body result opts force h =
       (result_of r, heap_of r,
        events_of (buildRequest c ctx verb url body o h1)
          ++ EvDo t req (inl resp) :: events_of r ++ [EvClose resp]).
Proof.
  rewrite verb_call_run. cbv zeta.
  destruct (result_of (buildRequest c ctx verb url body
                         (options_of opts h) (heap_after_options opts h)))
    as [req0|err] eqn:Hb.
  - destruct (http.Do (getClient c (options_of opts h)) _)
      as [resp0|err] eqn:Hdo.
    + unfold events_of at 1. simpl.
      rewrite elem_of_app, elem_of_cons, elem_of_app.
      intros [Hin|[Heq|[Hin|Hin]]].
      * apply buildRequest_event in Hin as [? _]. discriminate.
      * injection Heq as -> -> ->. exists req0. rewrite Hdo. repeat split.
      * apply parseResponse_event in Hin as [? _]. discriminate.
      * apply list_elem_of_singleton in Hin. discriminate.
    + unfold events_of at 1. simpl.
      rewrite elem_of_app.
      intros [Hin|Hin].
      * apply buildRequest_event in Hin as [? _]. discriminate.
      * apply list_elem_of_singleton in Hin. discriminate.
  - unfold events_of at 1. simpl.
    intros Hin. apply buildRequest_event in Hin as [? _]. discriminate.
Qed.

(** The run of the modelled [Put] on a []byte body. *)
Lemma put_raw_run c ctx url b result opts h :
  call PUT c ctx url (Bytes b) result opts h =
  let o := options_of opts h in
  let h1 := heap_after_options opts h in
  match NewRequestWithContext ctx http.MethodPut url b with
  | inr err =>
      (Some (fmt_Errorf "failed to create PUT request"
               (fmt_Errorf "failed to create request" err)), h1, [])
  | inl req0 =>
      let req :=
        apply_headers (map_range (map_entries (Headers o) h1)) req0 in
      let t := getClient c o in
      match http.Do t req with
      | inr err =>
          (Some (fmt_Errorf "failed to make PUT request" err), h1,
           [EvDo t req (inr err)])
      | inl resp =>
          let r := parseResponse c resp result o h1 in
          (result_of r, heap_of r,
           EvDo t req (inl resp) :: events_of r ++ [EvClose resp])
      end
  end.
Proof.
  unfold call, Client_Put, buildRequest_passthrough, buildOptions,
    options_of, heap_after_options.
  unfold bind at 1.
  destruct (apply_options opts zero_Options h) as [o h1]. simpl.
  destruct (NewRequestWithContext ctx http.MethodPut url b) as [req0|err];
    [|reflexivity].
  unfold bind, client_Do, result_of, heap_of, events_of. simpl.
  destruct (http.Do (getClient c o) _) as [resp|err]; simpl.
  - destruct (parseResponse c resp result o h1) as [[e h3] t2]. reflexivity.
  - reflexivity.
Qed.

(** A response a call received, for every verb: the transport is the
    selected one, and the rest of the call is the interpretation of that
    response; before the dispatch the log holds at most one marshal
    event. *)
Lemma call_response v c ctx url body result opts h t req resp :
  EvDo t req (inl resp) ∈ events_of (call v c ctx url body result opts h) ->
  let o := options_of opts h in
  let h1 := heap_after_options opts h in
  let r := parseResponse c resp result o h1 in
  exists pre,
    (pre = [] \/ exists x y, pre = [EvMarshal x y])
    /\ t = getClient c o
    /\ http.Do t req = inl resp
    /\ call v c ctx url body result opts h =
       (result_of r, heap_of r,
        pre ++ EvDo t req (inl resp) :: events_of r ++ [EvClose resp]).
Proof.
  destruct (call_shape_or_raw v c ctx url body result opts)
    as [Hshape|(b & -> & ->)].
  - rewrite Hshape. intros Hdo. cbv zeta.
    destruct (verb_call_response _ _ _ _ _ _ _ _ _ _ _ _ Hdo)
      as (req0 & Hb & _ & Ht & Hd & Hrun).
    exists (events_of (buildRequest c ctx (verb_name v) url (body_of v body)
                         (options_of opts h) (heap_after_options opts h))).
    split; [|split; [exact Ht|split; [exact Hd|exact Hrun]]].
    rewrite buildRequest_events. destruct (is_nil (body_of v body)); eauto.
  - rewrite put_raw_run. cbv zeta.
    destruct (NewRequestWithContext ctx http.MethodPut url b) as [req0|err];
      [|intros Hin; inversion Hin].
    destruct (http.Do _ _) as [resp0|err] eqn:Hd;
      unfold events_of at 1; simpl.
    + rewrite elem_of_cons, elem_of_app.
      intros [Heq|[Hin|Hin]].
      * injection Heq as -> -> ->. exists []. rewrite Hd. auto.
      * apply parseResponse_event in Hin as [? _]. discriminate.
      * apply list_elem_of_singleton in Hin. discriminate.
    + intros Hin%list_elem_of_singleton. discriminate.
Qed.

(** ** Status interpretation and decoding *)

Lemma parseResponse_http_error c resp result o h :
  Status o = None ->
  400 <= http.StatusCode resp ->
  parseResponse c resp result o h =
  (Some (errors_New ("HTTP error: " +:+ http.Status resp)), h, []).
Proof.
  intros Hs Hc. rewrite parseResponse_run, capture_status_run. cbv zeta.
  rewrite Hs. rewrite bool_decide_eq_true_2 by reflexivity.
  apply Z.leb_le in Hc. rewrite Hc. reflexivity.
Qed.

Lemma parseResponse_decode_failure c resp result o h data sink e :
  EvUnmarshal data sink (Some e)
    ∈ events_of (parseResponse c resp result o h) ->
  result_of (parseResponse c resp result o h) =
  if bool_decide (Status o <> None) && (400 <=? http.StatusCode resp)
  then None
  else Some (fmt_Errorf "failed to unmarshal JSON response" e).
Proof.
  intros Hin.
  destruct (parseResponse_event _ _ _ _ _ _ Hin)
    as (Heq & Hnil & Hread & Hguard).
  rewrite parseResponse_run. cbv zeta. rewrite Hguard.
  destruct (http.ReadAll resp) as [body [err|]]; simpl in *;
    [discriminate|].
  rewrite Hnil. injection Heq as _ _ Hres.
  unfold result_of at 1. simpl. rewrite <- Hres. reflexivity.
Qed.

Lemma parseResponse_heap c resp result o h p :
  Status o = Some p ->
  let h1 := store p (Int (http.StatusCode resp)) h in
  heap_of (parseResponse c resp result o h) = h1
  \/ exists data,
      heap_of (parseResponse c resp result o h) =
      heap_of (unmarshal c data result h1).
Proof.
  intros Hs. rewrite parseResponse_run, capture_status_run.
  cbv zeta. rewrite Hs. rewrite bool_decide_eq_false_2 by discriminate.
  simpl.
  destruct (http.ReadAll resp) as [body [err|]]; [left; reflexivity|].
  destruct (is_nil result); [left; reflexivity|].
  right. exists body. reflexivity.
Qed.

Lemma parseResponse_status_stored c resp result o h p :
  Status o = Some p ->
  (forall data h0,
      vars (heap_of (unmarshal c data result h0)) !! p = vars h0 !! p) ->
  vars (heap_of (parseResponse c resp result o h)) !! p =
  Some (Int (http.StatusCode resp)).
Proof.
  intros Hs Hframe. rewrite parseResponse_run, capture_status_run.
  cbv zeta. rewrite Hs. rewrite bool_decide_eq_false_2 by discriminate.
  simpl.
  assert (vars (store p (Int (http.StatusCode resp)) h) !! p =
          Some (Int (http.StatusCode resp))) as Hst
    by apply lookup_insert_eq.
  destruct (http.ReadAll resp) as [body [err|]]; [exact Hst|].
  destruct (is_nil result); [exact Hst|].
  unfold heap_of at 1. simpl. fold (heap_of (unmarshal c body result
    (store p (Int (http.StatusCode resp)) h))).
  rewrite Hframe. exact Hst.
Qed.

(** C3. When a call received a response and decoding its body into the
    non-nil result sink failed with [e]: if a status sink was supplied and
    the status code is at least 400 the call returns nil; in every other
    case (status below 400, or no status sink) it returns the decode
    error "failed to unmarshal JSON response" wrapping [e]. *)
Theorem decode_failure_outcome v c ctx url body result opts h
    t req resp data sink e :
  EvDo t req (inl resp) ∈ events_of (call v c ctx url body result opts h) ->
  EvUnmarshal data sink (Some e)
    ∈ events_of (call v c ctx url body result opts h) ->
  let o := options_of opts h in
  let r := result_of (call v c ctx url body result opts h) in
  sink = result /\ is_nil result = false
  /\ (is_Some (Status o) -> 400 <= http.StatusCode resp -> r = None)
  /\ (Status o = None \/ http.StatusCode resp < 400 ->
      r = Some (fmt_Errorf "failed to unmarshal JSON response" e)
      /\ forall e', r = Some e' -> wraps e' e).
Proof.
  intros Hdo Hun. cbv zeta.
  destruct (call_response _ _ _ _ _ _ _ _ _ _ _ Hdo)
    as (pre & Hpre & _ & _ & Hrun).
  rewrite Hrun in Hun |- *. unfold events_of at 1 in Hun. simpl in Hun.
  rewrite elem_of_app, elem_of_cons, elem_of_app in Hun.
  destruct Hun as [Hin|[Heq|[Hin|Hin]]].
  - destruct Hpre as [->|(x & y & ->)]; [inversion Hin|].
    apply list_elem_of_singleton in Hin. discriminate.
  - discriminate.
  - pose proof (parseResponse_decode_failure _ _ _ _ _ _ _ _ Hin) as Hres.
    apply parseResponse_event in Hin as (Heq & Hnil & _ & _).
    injection Heq as _ -> _.
    unfold result_of at 1 3. simpl. rewrite Hres.
    split; [reflexivity|]. split; [exact Hnil|]. split.
    + intros [p Hp] Hc. rewrite Hp.
      rewrite bool_decide_eq_true_2 by discriminate.
      apply Z.leb_le in Hc. rewrite Hc. reflexivity.
    + intros Hcase.
      assert (bool_decide (Status (options_of opts h) <> None)
              && (400 <=? http.StatusCode resp) = false) as ->.
      { destruct Hcase as [Hn|Hlt].
        - rewrite Hn. rewrite bool_decide_eq_false_2 by auto. reflexivity.
        - apply Z.leb_gt in Hlt. rewrite Hlt. apply andb_false_r. }
      split; [reflexivity|].
      intros e' [= <-]. apply wraps_next, wraps_here.
  - apply list_elem_of_singleton in Hin. discriminate.
Qed.

(** C4. When a call received a response with status code at least 400 and
    no status sink was supplied, the call returns the error
    "HTTP error: <status line>", the unmarshal function is not invoked,
    and the store (with it the variable behind the result sink) is as the
    options left it. *)
Theorem status_error_without_sink v c ctx url body result opts h
    t req resp :
  EvDo t req (inl resp) ∈ events_of (call v c ctx url body result opts h) ->
  Status (options_of opts h) = None ->
  400 <= http.StatusCode resp ->
  result_of (call v c ctx url body result opts h) =
    Some (errors_New ("HTTP error: " +:+ http.Status resp))
  /\ unmarshalled (events_of (call v c ctx url body result opts h)) = []
  /\ heap_of (call v c ctx url body result opts h) =
     heap_after_options opts h.
Proof.
  intros Hdo Hs Hc.
  destruct (call_response _ _ _ _ _ _ _ _ _ _ _ Hdo)
    as (pre & Hpre & _ & _ & Hrun).
  rewrite Hrun. rewrite (parseResponse_http_error _ _ _ _ _ Hs Hc).
  split; [reflexivity|]. split; [|reflexivity].
  unfold events_of at 1. simpl. rewrite unmarshalled_app.
  destruct Hpre as [->|(x & y & ->)]; reflexivity.
Qed.

(** C5. When a call received a response and a status sink [p] was
    supplied, the status code of the response is stored at [p] before
    anything else happens, whatever the code is: the store the call leaves
    is that store, or that store after the unmarshal function ran on it.
    So the sink holds the code when the call returns, whether decoding
    happened, succeeded or failed, as long as the unmarshal function (a
    function value of the caller) does not itself write to [p]. *)
Theorem status_sink_receives_code v c ctx url body result opts h
    t req resp p :
  EvDo t req (inl resp) ∈ events_of (call v c ctx url body result opts h) ->
  Status (options_of opts h) = Some p ->
  let h1 := store p (Int (http.StatusCode resp))
              (heap_after_options opts h) in
  let h2 := heap_of (call v c ctx url body result opts h) in
  vars h1 !! p = Some (Int (http.StatusCode resp))
  /\ (h2 = h1 \/ exists data, h2 = heap_of (unmarshal c data result h1))
  /\ ((forall data h0,
         vars (heap_of (unmarshal c data result h0)) !! p = vars h0 !! p) ->
      vars h2 !! p = Some (Int (http.StatusCode resp))).
Proof.
  intros Hdo Hs. cbv zeta.
  destruct (call_response _ _ _ _ _ _ _ _ _ _ _ Hdo)
    as (pre & Hpre & _ & _ & Hrun).
  rewrite Hrun. unfold heap_of at 1 3 5. simpl.
  split; [apply lookup_insert_eq|]. split.
  - apply parseResponse_heap. exact Hs.
  - intros Hframe. apply parseResponse_status_stored; assumption.
Qed.

(** ** What a call dispatches *)

Lemma buildRequest_no_dispatch c ctx method url body o h :
  dispatched (events_of (buildRequest c ctx method url body o h)) = [].
Proof. rewrite buildRequest_events. destruct (is_nil body); reflexivity. Qed.

Lemma verb_call_dispatched c ctx verb url body result opts force h :
  dispatched (events_of (verb_call c ctx verb url body result opts force h))
  = match result_of (buildRequest c ctx verb url body (options_of opts h)
                       (heap_after_options opts h)) with
    | inl req0 =>
        [(getClient c (options_of opts h),
          if force then set_Header "Content-Type" "application/json" req0
          else req0)]
    | inr _ => []
    end.
Proof.
  rewrite verb_call_run. cbv zeta.
  destruct (result_of (buildRequest _ _ _ _ _ _ _)) as [req0|err].
  - destruct (http.Do _ _) as [resp|err]; unfold events_of at 1; simpl.
    + rewrite dispatched_app, buildRequest_no_dispatch. simpl.
      rewrite dispatched_app.
      destruct (parseResponse_no_dispatch c resp result
                  (options_of opts h) (heap_after_options opts h))
        as [-> _].
      reflexivity.
    + rewrite dispatched_app, buildRequest_no_dispatch. reflexivity.
  - unfold events_of at 1. simpl. apply buildRequest_no_dispatch.
Qed.

Lemma dispatched_elem t req r (evs : list Event) :
  EvDo t req r ∈ evs -> (t, req) ∈ dispatched evs.
Proof.
  intros Hin. unfold dispatched. apply list_elem_of_omap.
  exists (EvDo t req r). split; [exact Hin|reflexivity].
Qed.

(** A failed marshal step is the one of [buildRequest], and it makes
    [buildRequest] fail. *)
Lemma verb_call_marshal_failure c ctx verb url body result opts force h
    payload bs e :
  EvMarshal payload (bs, Some e)
    ∈ events_of (verb_call c ctx verb url body result opts force h) ->
  payload = body /\ is_nil body = false
  /\ result_of (buildRequest c ctx verb url body (options_of opts h)
                  (heap_after_options opts h))
     = inr (fmt_Errorf "failed to marshal request body" e).
Proof.
  rewrite verb_call_run. cbv zeta. intros Hin.
  assert (EvMarshal payload (bs, Some e)
            ∈ events_of (buildRequest c ctx verb url body
                           (options_of opts h) (heap_after_options opts h)))
    as Hb.
  { destruct (result_of (buildRequest _ _ _ _ _ _ _)) as [req0|err].
    - destruct (http.Do _ _) as [resp|err];
        unfold events_of at 1 in Hin; simpl in Hin.
      + rewrite elem_of_app, elem_of_cons, elem_of_app in Hin.
        destruct Hin as [Hin|[Heq|[Hin|Hin]]];
          [exact Hin|discriminate| |].
        * apply parseResponse_event in Hin as [? _]. discriminate.
        * apply list_elem_of_singleton in Hin. discriminate.
      + rewrite elem_of_app in Hin. destruct Hin as [Hin|Hin];
          [exact Hin|].
        apply list_elem_of_singleton in Hin. discriminate.
    - exact Hin. }
  apply buildRequest_event in Hb as [Heq Hnil].
  injection Heq as -> Hm. split; [reflexivity|]. split; [exact Hnil|].
  eapply buildRequest_marshal_error; [exact Hnil|]. symmetry. exact Hm.
Qed.

Lemma is_raw_inv v body :
  is_raw v body = true -> exists b, v = PUT /\ body = Bytes b.
Proof. destruct v, body; try discriminate. eauto. Qed.

Lemma call_not_raw v c ctx url body result opts :
  is_raw v body = false ->
  call v c ctx url body result opts =
  verb_call c ctx (verb_name v) url (body_of v body) result opts
    (forces_content_type v).
Proof. destruct v, body; try discriminate; reflexivity. Qed.

Lemma NewRequestWithContext_ok ctx method url b req :
  NewRequestWithContext ctx method url b = inl req ->
  req = http.mkRequest method url ∅ b ctx /\ ctx <> None.
Proof.
  unfold NewRequestWithContext. destruct ctx as [i|]; [|discriminate].
  destruct (url_Parse url); [discriminate|]. intros [= <-]. split;
    [reflexivity|discriminate].
Qed.

(** What a call dispatches, for every verb: nothing, or one request
    through the selected transport, with the verb, the URL, the context,
    the headers of the options (and the forced Content-Type on top for
    POST and PATCH), and as payload the output of the marshal function,
    or the bytes themselves at a []byte body of the modelled [Put]. *)
Lemma call_dispatched v c ctx url body result opts h :
  let o := options_of opts h in
  let h1 := heap_after_options opts h in
  dispatched (events_of (call v c ctx url body result opts h)) = []
  \/ exists req0,
      dispatched (events_of (call v c ctx url body result opts h)) =
        [(getClient c o,
          if forces_content_type v
          then set_Header "Content-Type" "application/json" req0
          else req0)]
      /\ http.Method req0 = verb_name v
      /\ http.URL req0 = url
      /\ http.Ctx req0 = ctx
      /\ http.Header req0 =
         headers_from (map_range (map_entries (Headers o) h1))
      /\ http.Body req0 =
         if is_raw v body
         then match body with Bytes b => b | _ => [] end
         else if is_nil (body_of v body) then []
              else (result_of (marshal c (body_of v body) h1)).1.
Proof.
  cbv zeta. destruct (is_raw v body) eqn:Hraw.
  - apply is_raw_inv in Hraw as (b & -> & ->). rewrite put_raw_run.
    cbv zeta.
    destruct (NewRequestWithContext ctx http.MethodPut url b)
      as [req0|err] eqn:Hnew; [|left; reflexivity].
    right.
    exists (apply_headers
              (map_range (map_entries (Headers (options_of opts h))
                            (heap_after_options opts h))) req0).
    apply NewRequestWithContext_ok in Hnew as [-> _].
    destruct (apply_headers_fields
                (map_range (map_entries (Headers (options_of opts h))
                              (heap_after_options opts h)))
                (http.mkRequest http.MethodPut url ∅ b ctx))
      as (Hm & Hu & Hbd & Hc & Hh).
    split.
    + destruct (http.Do _ _) as [resp|err]; unfold events_of at 1; simpl;
        [|reflexivity].
      rewrite dispatched_app.
      destruct (parseResponse_no_dispatch c resp result
                  (options_of opts h) (heap_after_options opts h))
        as [-> _].
      reflexivity.
    + rewrite Hm, Hu, Hbd, Hc, Hh. repeat split.
  - rewrite (call_not_raw _ _ _ _ _ _ _ Hraw), verb_call_dispatched.
    destruct (result_of (buildRequest _ _ _ _ _ _ _)) as [req0|err] eqn:Hb;
      [|left; reflexivity].
    right. exists req0. split; [reflexivity|].
    apply buildRequest_ok in Hb as (Hm & Hu & Hc & Hbd & Hh). auto.
Qed.

(** A failed marshal step, for every verb. *)
Lemma call_marshal_failure v c ctx url body result opts h payload bs e :
  EvMarshal payload (bs, Some e)
    ∈ events_of (call v c ctx url body result opts h) ->
  payload = body_of v body /\ is_nil (body_of v body) = false
  /\ result_of (call v c ctx url body result opts h) =
     Some (fmt_Errorf ("failed to create " +:+ verb_name v +:+ " request")
             (fmt_Errorf "failed to marshal request body" e))
  /\ dispatched (events_of (call v c ctx url body result opts h)) = [].
Proof.
  destruct (is_raw v body) eqn:Hraw.
  - apply is_raw_inv in Hraw as (b & -> & ->). rewrite put_raw_run.
    cbv zeta.
    destruct (NewRequestWithContext ctx http.MethodPut url b)
      as [req0|err]; [|intros Hin; inversion Hin].
    destruct (http.Do _ _) as [resp|err]; unfold events_of at 1; simpl.
    + rewrite elem_of_cons, elem_of_app. intros [Heq|[Hin|Hin]].
      * discriminate.
      * apply parseResponse_event in Hin as [? _]. discriminate.
      * apply list_elem_of_singleton in Hin. discriminate.
    + intros Hin%list_elem_of_singleton. discriminate.
  - rewrite (call_not_raw _ _ _ _ _ _ _ Hraw). intros Hin.
    destruct (verb_call_marshal_failure _ _ _ _ _ _ _ _ _ _ _ _ Hin)
      as (-> & Hnil & Hb).
    rewrite verb_call_dispatched. rewrite verb_call_run. cbv zeta.
    rewrite Hb. repeat split. exact Hnil.
Qed.

(** C7. When the marshal step of a call fails with [e], the call returns
    "failed to create <VERB> request" wrapping "failed to marshal request
    body" wrapping [e], and no transport is invoked.  Only the calls that
    carry a body can meet the condition. *)
Theorem marshal_failure_aborts v c ctx url body result opts h payload bs e :
  EvMarshal payload (bs, Some e)
    ∈ events_of (call v c ctx url body result opts h) ->
  let failure :=
    fmt_Errorf ("failed to create " +:+ verb_name v +:+ " request")
      (fmt_Errorf "failed to marshal request body" e) in
  result_of (call v c ctx url body result opts h) = Some failure
  /\ wraps failure e
  /\ Error failure =
     "failed to create " +:+ verb_name v
       +:+ " request: failed to marshal request body: " +:+ Error e
  /\ dispatched (events_of (call v c ctx url body result opts h)) = []
  /\ payload = body /\ body_of v body = body.
Proof.
  intros Hin. cbv zeta.
  destruct (call_marshal_failure _ _ _ _ _ _ _ _ _ _ _ Hin)
    as (-> & Hnil & Hres & Hdisp).
  split; [exact Hres|].
  split; [apply wraps_next, wraps_next, wraps_here|].
  split; [destruct v; reflexivity|]. split; [exact Hdisp|].
  destruct v; simpl in Hnil |- *; try discriminate; split; reflexivity.
Qed.

(** C9. Whatever a call dispatches goes through the transport chosen by
    this precedence: the transport of the options when they carry one,
    otherwise the transport of the Client when it has one, otherwise the
    default transport of the platform. *)
Theorem transport_precedence v c ctx url body result opts h t req r :
  EvDo t req r ∈ events_of (call v c ctx url body result opts h) ->
  t = match Options_Client (options_of opts h) with
      | Some override => override
      | None =>
          match Client_Client c with
          | Some own => own
          | None => http_DefaultClient
          end
      end.
Proof.
  intros Hin%dispatched_elem.
  destruct (call_dispatched v c ctx url body result opts h)
    as [Hd|(req0 & Hd & _)]; rewrite Hd in Hin.
  - inversion Hin.
  - apply list_elem_of_singleton in Hin. injection Hin as -> _.
    unfold getClient.
    destruct (Options_Client (options_of opts h)); [reflexivity|].
    destruct (Client_Client c); reflexivity.
Qed.

(** ** Folding the options *)

Lemma apply_options_app xs ys o h :
  apply_options (xs ++ ys) o h =
  apply_options ys (apply_options xs o h).1 (apply_options xs o h).2.
Proof.
  revert o h. induction xs as [|opt xs IH]; intros o h; simpl.
  - reflexivity.
  - destruct (opt o h) as [o1 h1]. apply IH.
Qed.

Lemma apply_options_pair (a b : Option) o h :
  apply_options [a; b] o h = b (a o h).1 (a o h).2.
Proof.
  simpl. destruct (a o h) as [o1 h1]. simpl.
  destruct (b o1 h1) as [o2 h2]. reflexivity.
Qed.

Lemma map_assign_entries m key value h :
  map_entries (Some m) (map_assign m key value h) =
  <[key := value]> (map_entries (Some m) h).
Proof.
  unfold map_assign, map_entries. simpl. rewrite lookup_insert_eq.
  reflexivity.
Qed.

Lemma map_assign_twice m key v1 v2 h :
  map_assign m key v2 (map_assign m key v1 h) = map_assign m key v2 h.
Proof.
  unfold map_assign, map_entries. simpl. rewrite lookup_insert_eq. simpl.
  rewrite !insert_insert_eq. reflexivity.
Qed.

Lemma WithHeader_entries key value o h :
  map_entries (Headers (WithHeader key value o h).1)
    (WithHeader key value o h).2 =
  <[key := value]> (map_entries (Headers o) h).
Proof.
  unfold WithHeader. destruct (Headers o) as [m|]; simpl.
  - apply map_assign_entries.
  - unfold make_map, map_assign, map_entries. simpl.
    rewrite !lookup_insert_eq. reflexivity.
Qed.

Lemma WithHeader_twice key v1 v2 o h :
  WithHeader key v2 (WithHeader key v1 o h).1 (WithHeader key v1 o h).2 =
  WithHeader key v2 o h.
Proof.
  unfold WithHeader. destruct (Headers o) as [m|]; simpl;
    rewrite map_assign_twice; reflexivity.
Qed.

(** The package's own options write to map objects only: the variables of
    the caller are as before the fold. *)
Lemma builtin_options_keep_vars opts o h :
  Forall builtin opts -> vars (apply_options opts o h).2 = vars h.
Proof.
  intros Hall. revert o h.
  induction Hall as [|opt opts Hopt _ IH]; intros o h; simpl.
  - reflexivity.
  - destruct (opt o h) as [o1 h1] eqn:E. rewrite IH.
    destruct Hopt; unfold WithHeaders, WithHeader, WithStatus in E.
    + injection E as _ <-. reflexivity.
    + destruct (Headers o); injection E as _ <-; reflexivity.
    + injection E as _ <-. reflexivity.
Qed.

(** ** The headers of the request *)

Lemma map_range_elem (m : gmap string string) k v :
  (k, v) ∈ map_range m <-> m !! k = Some v.
Proof. rewrite (map_range_perm m). apply elem_of_map_to_list. Qed.

Lemma map_range_singleton k v : map_range {[k := v]} = [(k, v)].
Proof.
  apply Permutation_singleton_r. rewrite (map_range_perm {[k := v]}).
  rewrite map_to_list_singleton. reflexivity.
Qed.

Lemma headers_from_singleton k v :
  headers_from (map_range {[k := v]}) = {[CanonicalMIMEHeaderKey k := [v]]}.
Proof.
  rewrite map_range_singleton. unfold headers_from, Header_Set. simpl.
  apply insert_empty.
Qed.

Lemma headers_fold_absent entries hd key :
  (forall k v, (k, v) ∈ entries -> CanonicalMIMEHeaderKey k <> key) ->
  fold_left (fun hd kv => Header_Set kv.1 kv.2 hd) entries hd !! key =
  hd !! key.
Proof.
  revert hd. induction entries as [|[k v] entries IH]; intros hd Hne; simpl.
  - reflexivity.
  - rewrite IH.
    + unfold Header_Set. apply lookup_insert_ne. apply (Hne k v). left.
    + intros k' v' Hin. apply (Hne k' v'). right. exact Hin.
Qed.

(** Only the entries of a map make headers: a name that no key of the map
    canonicalises to is absent. *)
Lemma headers_from_absent (m : gmap string string) key :
  (forall k, k ∈ dom m ->
     CanonicalMIMEHeaderKey k <> CanonicalMIMEHeaderKey key) ->
  headers_from (map_range m) !! CanonicalMIMEHeaderKey key = None.
Proof.
  intros Hne. unfold headers_from. rewrite headers_fold_absent.
  - apply lookup_empty.
  - intros k v Hin%map_range_elem. apply Hne. apply elem_of_dom. eauto.
Qed.

(** The headers of whatever a call dispatches: those of the options, and
    for POST and PATCH the Content-Type set on top of them. *)
Lemma call_request_headers v c ctx url body result opts h t req r :
  EvDo t req r ∈ events_of (call v c ctx url body result opts h) ->
  let user :=
    headers_from
      (map_range (map_entries (Headers (options_of opts h))
                    (heap_after_options opts h))) in
  http.Header req =
  if forces_content_type v
  then Header_Set "Content-Type" "application/json" user
  else user.
Proof.
  intros Hin%dispatched_elem. cbv zeta.
  destruct (call_dispatched v c ctx url body result opts h)
    as [Hd|(req0 & Hd & _ & _ & _ & Hh & _)]; rewrite Hd in Hin.
  - inversion Hin.
  - apply list_elem_of_singleton in Hin. injection Hin as _ ->.
    destruct (forces_content_type v); simpl; rewrite Hh; reflexivity.
Qed.

(** C6. The request a POST or PATCH call dispatches has the headers of the
    options with Content-Type set to application/json on top of them, so
    that a Content-Type of the user (under any spelling of the name) is
    overwritten; the request a GET, PUT or DELETE call dispatches has the
    headers of the options and nothing else. *)
Theorem content_type_policy v c ctx url body result opts h t req r :
  EvDo t req r ∈ events_of (call v c ctx url body result opts h) ->
  let user :=
    headers_from
      (map_range (map_entries (Headers (options_of opts h))
                    (heap_after_options opts h))) in
  match v with
  | POST | PATCH =>
      http.Header req = Header_Set "Content-Type" "application/json" user
      /\ http.Header req !! CanonicalMIMEHeaderKey "Content-Type" =
         Some ["application/json"]
      /\ Header_Get (http.Header req) "Content-Type" = "application/json"
  | GET | PUT | DELETE => http.Header req = user
  end.
Proof.
  intros Hin. pose proof (call_request_headers _ _ _ _ _ _ _ _ _ _ _ Hin) as Hh.
  cbv zeta in *.
  destruct v; simpl in Hh; try exact Hh;
    (split; [exact Hh|]); rewrite Hh; unfold Header_Get, Header_Set;
    rewrite lookup_insert_eq; split; reflexivity.
Qed.

(** C8. [WithHeaders m] as the last option leaves [m] as the header map of
    the options, whatever the earlier options accumulated, and does not
    touch the store.  The request the call dispatches carries the headers
    made from the entries of [m] (for POST and PATCH with the forced
    Content-Type on top) and no other: a header name that no key of [m]
    canonicalises to, and that is not the forced one, is absent from it,
    also when an earlier option had set it. *)
Theorem WithHeaders_replaces v c ctx url body result pre m h t req r :
  EvDo t req r
    ∈ events_of (call v c ctx url body result (pre ++ [WithHeaders m]) h) ->
  let h1 := heap_after_options pre h in
  let replaced := headers_from (map_range (map_entries m h1)) in
  Headers (options_of (pre ++ [WithHeaders m]) h) = m
  /\ heap_after_options (pre ++ [WithHeaders m]) h = h1
  /\ http.Header req =
     (if forces_content_type v
      then Header_Set "Content-Type" "application/json" replaced
      else replaced)
  /\ forall key,
       (forall k, k ∈ dom (map_entries m h1) ->
          CanonicalMIMEHeaderKey k <> CanonicalMIMEHeaderKey key) ->
       (forces_content_type v = true ->
          CanonicalMIMEHeaderKey key <> CanonicalMIMEHeaderKey "Content-Type") ->
       http.Header req !! CanonicalMIMEHeaderKey key = None.
Proof.
  intros Hin. pose proof (call_request_headers _ _ _ _ _ _ _ _ _ _ _ Hin) as Hh.
  cbv zeta in *.
  assert (Headers (options_of (pre ++ [WithHeaders m]) h) = m
          /\ heap_after_options (pre ++ [WithHeaders m]) h =
             heap_after_options pre h) as [Ho Hp].
  { unfold options_of, heap_after_options. rewrite apply_options_app.
    split; reflexivity. }
  rewrite Ho, Hp in Hh.
  split; [exact Ho|]. split; [exact Hp|]. split; [exact Hh|].
  intros key Hm Hct. rewrite Hh.
  destruct (forces_content_type v).
  - unfold Header_Set. rewrite lookup_insert_ne by (intros E; apply Hct; auto).
    apply headers_from_absent. exact Hm.
  - apply headers_from_absent. exact Hm.
Qed.

(** C10. The options are applied from left to right (a longer list is the
    shorter one followed by the rest), and on one field the later option
    wins: [WithHeader] twice on one key, [WithHeaders] twice and
    [WithStatus] twice each act as the second alone.  In particular
    [WithHeader "X" "1"] followed by [WithHeader "X" "2"] leaves the header
    map with the single entry X: 2, and the request the call dispatches has
    exactly the header X with the value 2 (besides the forced Content-Type
    of POST and PATCH). *)
Theorem later_option_wins :
  (forall xs ys o h,
      apply_options (xs ++ ys) o h =
      apply_options ys (apply_options xs o h).1 (apply_options xs o h).2)
  /\ (forall key v1 v2 o h,
        WithHeader key v2 (WithHeader key v1 o h).1 (WithHeader key v1 o h).2
        = WithHeader key v2 o h)
  /\ (forall m1 m2 o h,
        WithHeaders m2 (WithHeaders m1 o h).1 (WithHeaders m1 o h).2
        = WithHeaders m2 o h)
  /\ (forall s1 s2 o h,
        WithStatus s2 (WithStatus s1 o h).1 (WithStatus s1 o h).2
        = WithStatus s2 o h)
  /\ (forall h,
        let opts := [WithHeader "X" "1"; WithHeader "X" "2"] in
        map_entries (Headers (options_of opts h)) (heap_after_options opts h)
        = {["X" := "2"]})
  /\ (forall v c ctx url body result h t req r,
        EvDo t req r
          ∈ events_of (call v c ctx url body result
                         [WithHeader "X" "1"; WithHeader "X" "2"] h) ->
        http.Header req =
        if forces_content_type v
        then Header_Set "Content-Type" "application/json"
               {[CanonicalMIMEHeaderKey "X" := ["2"]]}
        else {[CanonicalMIMEHeaderKey "X" := ["2"]]}).
Proof.
  assert (forall h,
             map_entries
               (Headers (options_of [WithHeader "X" "1"; WithHeader "X" "2"] h))
               (heap_after_options [WithHeader "X" "1"; WithHeader "X" "2"] h)
             = {["X" := "2"]}) as Hx.
  { intros h. unfold options_of, heap_after_options.
    rewrite apply_options_pair, !WithHeader_entries.
    rewrite insert_insert_eq. apply insert_empty. }
  split; [apply apply_options_app|].
  split; [apply WithHeader_twice|].
  split; [reflexivity|]. split; [reflexivity|]. split; [exact Hx|].
  intros v c ctx url body result h t req r Hin.
  rewrite (call_request_headers _ _ _ _ _ _ _ _ _ _ _ Hin).
  rewrite Hx, headers_from_singleton. reflexivity.
Qed.

(** The fields of whatever a call dispatches. *)
Lemma call_request_fields v c ctx url body result opts h t req r :
  EvDo t req r ∈ events_of (call v c ctx url body result opts h) ->
  http.Method req = verb_name v /\ http.URL req = url /\ http.Ctx req = ctx
  /\ http.Body req =
     (if is_raw v body
      then match body with Bytes b => b | _ => [] end
      else if is_nil (body_of v body) then []
           else (result_of (marshal c (body_of v body)
                              (heap_after_options opts h))).1).
Proof.
  intros Hin%dispatched_elem.
  destruct (call_dispatched v c ctx url body result opts h)
    as [Hd|(req0 & Hd & Hm & Hu & Hc & _ & Hbody)]; rewrite Hd in Hin.
  - inversion Hin.
  - apply list_elem_of_singleton in Hin. injection Hin as _ ->.
    destruct (forces_content_type v); simpl; auto.
Qed.

(** ** The modelled [Put] *)

Lemma buildRequest_result c ctx method url body o h :
  result_of (buildRequest c ctx method url body o h) =
  match (if is_nil body then ([], None) else result_of (marshal c body h)) with
  | (_, Some err) => inr (fmt_Errorf "failed to marshal request body" err)
  | (bs, None) =>
      match NewRequestWithContext ctx method url bs with
      | inr err => inr (fmt_Errorf "failed to create request" err)
      | inl req =>
          inl (apply_headers (map_range (map_entries (Headers o) h)) req)
      end
  end.
Proof.
  unfold buildRequest, bind, marshal, ret, result_of.
  destruct (is_nil body); simpl.
  - destruct (NewRequestWithContext ctx method url []); reflexivity.
  - destruct (match MarshalFunc c with
              | Some f => f body h
              | None => json_Marshal body h
              end) as [bs [e|]]; simpl; [reflexivity|].
    destruct (NewRequestWithContext ctx method url bs); reflexivity.
Qed.

Lemma parseResponse_closes_nothing c resp result o h :
  closed (events_of (parseResponse c resp result o h)) = [].
Proof.
  rewrite parseResponse_run. cbv zeta.
  destruct (bool_decide (Status o = None) && (400 <=? http.StatusCode resp));
    [reflexivity|].
  destruct (http.ReadAll resp) as [body [err|]]; [reflexivity|].
  destruct (is_nil result); reflexivity.
Qed.

(** The run of the modelled [Put], step by step, for every body. *)
Lemma put_run c ctx url body result opts h :
  Client_Put c ctx url body result opts h =
  let o := options_of opts h in
  let h1 := heap_after_options opts h in
  let payload :=
    match body with
    | Nil => ([], None)
    | Bytes b => (b, None)
    | _ => result_of (marshal c body h1)
    end in
  let pre :=
    match body with
    | Nil | Bytes _ => []
    | _ => [EvMarshal body (result_of (marshal c body h1))]
    end in
  match payload with
  | (_, Some err) =>
      (Some (fmt_Errorf "failed to create PUT request"
               (fmt_Errorf "failed to marshal request body" err)), h1, pre)
  | (bs, None) =>
      match NewRequestWithContext ctx http.MethodPut url bs with
      | inr err =>
          (Some (fmt_Errorf "failed to create PUT request"
                   (fmt_Errorf "failed to create request" err)), h1, pre)
      | inl req0 =>
          let req :=
            apply_headers (map_range (map_entries (Headers o) h1)) req0 in
          let t := getClient c o in
          match http.Do t req with
          | inr err =>
              (Some (fmt_Errorf "failed to make PUT request" err), h1,
               pre ++ [EvDo t req (inr err)])
          | inl resp =>
              let r := parseResponse c resp result o h1 in
              (result_of r, heap_of r,
               pre ++ EvDo t req (inl resp) :: events_of r ++ [EvClose resp])
          end
      end
  end.
Proof.
  change (Client_Put c ctx url body result opts h)
    with (call PUT c ctx url body result opts h).
  destruct body as [|b| | | | |];
    try (rewrite (call_not_raw PUT) by reflexivity;
         rewrite verb_call_run; cbv zeta;
         rewrite buildRequest_result, buildRequest_events; simpl;
         match goal with
         | |- context [result_of (marshal ?c ?x ?h)] =>
             destruct (result_of (marshal c x h)) as [bs [err|]]
         | _ => idtac
         end;
         try reflexivity;
         match goal with
         | |- context [NewRequestWithContext ?a ?b ?c ?d] =>
             destruct (NewRequestWithContext a b c d)
         end;
         reflexivity).
  rewrite put_raw_run. cbv beta iota zeta.
  destruct (NewRequestWithContext ctx http.MethodPut url b) as [req0|err];
    [|reflexivity].
  destruct (http.Do _ _); reflexivity.
Qed.

Lemma request_eta (req : http.Request) :
  req = http.mkRequest (http.Method req) (http.URL req) (http.Header req)
          (http.Body req) (http.Ctx req).
Proof. destruct req. reflexivity. Qed.

(** C2. The package-level [Put] hands all its arguments to the method [Put]
    of the default client.  The method takes a context, a URL, a body, a
    result sink and options and returns an error, and it is a PUT: when the
    context is not nil, the URL parses and the payload can be made (a nil
    body gives none, a []byte body is the payload as it is, any other body
    is marshalled), it dispatches exactly one request through the selected
    transport, with the verb PUT, that URL, that context, that payload and
    the headers of the options, no Content-Type forced; otherwise it
    dispatches nothing and fails with "failed to create PUT request".  The
    marshal function is invoked on a body that is neither nil nor a []byte,
    and on no other.  A received response is interpreted as for the other
    verbs and its body closed; a failure of the transport is returned as
    "failed to make PUT request". *)
Theorem Put_delegates c ctx url body result opts h :
  let o := options_of opts h in
  let h1 := heap_after_options opts h in
  let payload :=
    match body with
    | Nil => ([], None)
    | Bytes b => (b, None)
    | _ => result_of (marshal c body h1)
    end in
  let run := Client_Put c ctx url body result opts h in
  Put ctx url body result opts =
    Client_Put defaultClient ctx url body result opts
  /\ match ctx, url_Parse url, payload.2 with
     | Some _, None, None =>
         dispatched (events_of run) =
         [(getClient c o,
           http.mkRequest http.MethodPut url
             (headers_from (map_range (map_entries (Headers o) h1)))
             payload.1 ctx)]
     | _, _, _ =>
         dispatched (events_of run) = []
         /\ exists e,
             result_of run =
             Some (fmt_Errorf "failed to create PUT request" e)
     end
  /\ marshalled (events_of run) =
     match body with
     | Nil | Bytes _ => []
     | _ => [body]
     end
  /\ (forall t req resp,
        EvDo t req (inl resp) ∈ events_of run ->
        result_of run = result_of (parseResponse c resp result o h1)
        /\ heap_of run = heap_of (parseResponse c resp result o h1)
        /\ closed (events_of run) = [resp])
  /\ (forall t req e,
        EvDo t req (inr e) ∈ events_of run ->
        result_of run = Some (fmt_Errorf "failed to make PUT request" e)
        /\ heap_of run = h1
        /\ closed (events_of run) = []).
Proof.
  cbv zeta. split; [reflexivity|].
  assert (forall evs : list Event,
             (match body with
              | Nil | Bytes _ => []
              | _ => [EvMarshal body
                        (result_of (marshal c body
                                      (heap_after_options opts h)))]
              end = evs) ->
             dispatched evs = [] /\ closed evs = []
             /\ marshalled evs =
                match body with Nil | Bytes _ => [] | _ => [body] end
             /\ (forall t req r, EvDo t req r ∈ evs -> False)) as Hpre.
  { intros evs <-. destruct body; repeat split;
      intros t req r Hin; try (inversion Hin; fail);
      apply list_elem_of_singleton in Hin; discriminate. }
  rewrite put_run. cbv zeta.
  destruct (Hpre _ eq_refl) as (Hpd & Hpc & Hpm & Hpno).
  set (pre := match body with
              | Nil | Bytes _ => []
              | _ => [EvMarshal body
                        (result_of (marshal c body
                                      (heap_after_options opts h)))]
              end) in *.
  destruct (match body with
            | Nil => ([], None)
            | Bytes b => (b, None)
            | _ => result_of (marshal c body (heap_after_options opts h))
            end) as [bs [merr|]]; simpl.
  - (* the marshal function failed *)
    split.
    { destruct ctx; [destruct (url_Parse url)|]; split; eauto. }
    split; [exact Hpm|]. split.
    + intros t req resp Hin. destruct (Hpno _ _ _ Hin).
    + intros t req e Hin. destruct (Hpno _ _ _ Hin).
  - unfold NewRequestWithContext. destruct ctx as [i|].
    + destruct (url_Parse url) as [perr|].
      * split; [split; eauto|]. split; [exact Hpm|]. split.
        -- intros t req resp Hin. destruct (Hpno _ _ _ Hin).
        -- intros t req e Hin. destruct (Hpno _ _ _ Hin).
      * set (req0 := apply_headers _ _).
        assert (req0 =
                http.mkRequest http.MethodPut url
                  (headers_from
                     (map_range
                        (map_entries (Headers (options_of opts h))
                           (heap_after_options opts h)))) bs (Some i))
          as Hreq.
        { subst req0.
          destruct (apply_headers_fields
                      (map_range (map_entries (Headers (options_of opts h))
                                    (heap_after_options opts h)))
                      (http.mkRequest http.MethodPut url ∅ bs (Some i)))
            as (Hm & Hu & Hbd & Hc & Hh).
          rewrite (request_eta (apply_headers _ _)).
          rewrite Hm, Hu, Hbd, Hc, Hh. reflexivity. }
        destruct (http.Do _ req0) as [resp|err]; unfold events_of, result_of,
          heap_of; simpl.
        -- split.
           { rewrite dispatched_app, Hpd. simpl. rewrite dispatched_app.
             destruct (parseResponse_no_dispatch c resp result
                         (options_of opts h) (heap_after_options opts h))
               as [Hd _].
             unfold events_of in Hd. rewrite Hd. simpl. rewrite Hreq.
             reflexivity. }
           split.
           { rewrite marshalled_app, Hpm. simpl. rewrite marshalled_app.
             destruct (parseResponse_no_dispatch c resp result
                         (options_of opts h) (heap_after_options opts h))
               as [_ Hm].
             unfold events_of in Hm. rewrite Hm. simpl.
             apply app_nil_r. }
           split.
           ++ intros t req resp' Hin.
              rewrite elem_of_app, elem_of_cons, elem_of_app in Hin.
              destruct Hin as [Hin|[Heq|[Hin|Hin]]].
              ** destruct (Hpno _ _ _ Hin).
              ** injection Heq as _ _ ->. split; [reflexivity|].
                 split; [reflexivity|].
                 unfold closed at 1. rewrite omap_app. fold (closed pre).
                 rewrite Hpc. simpl. rewrite omap_app.
                 pose proof (parseResponse_closes_nothing c resp result
                               (options_of opts h)
                               (heap_after_options opts h)) as Hcl.
                 unfold closed, events_of in Hcl. rewrite Hcl. reflexivity.
              ** apply (parseResponse_event c resp result
                          (options_of opts h) (heap_after_options opts h))
                   in Hin as [? _]. discriminate.
              ** apply list_elem_of_singleton in Hin. discriminate.
           ++ intros t req e Hin.
              rewrite elem_of_app, elem_of_cons, elem_of_app in Hin.
              destruct Hin as [Hin|[Heq|[Hin|Hin]]].
              ** destruct (Hpno _ _ _ Hin).
              ** discriminate.
              ** apply (parseResponse_event c resp result
                          (options_of opts h) (heap_after_options opts h))
                   in Hin as [? _]. discriminate.
              ** apply list_elem_of_singleton in Hin. discriminate.
        -- split.
           { rewrite dispatched_app, Hpd. simpl. rewrite Hreq.
             reflexivity. }
           split.
           { rewrite marshalled_app, Hpm. simpl. apply app_nil_r. }
           split.
           ++ intros t req resp' Hin.
              rewrite elem_of_app in Hin. destruct Hin as [Hin|Hin].
              ** destruct (Hpno _ _ _ Hin).
              ** apply list_elem_of_singleton in Hin. discriminate.
           ++ intros t req e Hin.
              rewrite elem_of_app in Hin. destruct Hin as [Hin|Hin].
              ** destruct (Hpno _ _ _ Hin).
              ** apply list_elem_of_singleton in Hin.
                 injection Hin as _ _ ->. split; [reflexivity|].
                 split; [reflexivity|].
                 unfold closed. rewrite omap_app. fold (closed pre).
                 rewrite Hpc. reflexivity.
    + split; [split; eauto|]. split; [exact Hpm|]. split.
      * intros t req resp Hin. destruct (Hpno _ _ _ Hin).
      * intros t req e Hin. destruct (Hpno _ _ _ Hin).
Qed.

(** A []byte body is marshalled like any other body: [buildRequest] invokes
    the marshal function on it, and the payload of the request is what the
    function returns. *)
Lemma buildRequest_marshals_bytes c ctx method url b o h :
  marshalled (events_of (buildRequest c ctx method url (Bytes b) o h)) =
    [Bytes b]
  /\ forall req,
       result_of (buildRequest c ctx method url (Bytes b) o h) = inl req ->
       http.Body req = (result_of (marshal c (Bytes b) h)).1.
Proof.
  split.
  - rewrite buildRequest_events. reflexivity.
  - intros req Hb. apply buildRequest_ok in Hb as (_ & _ & _ & Hbody & _).
    exact Hbody.
Qed.

End Properties.

(** * The properties at concrete calls

    Each statement below is one of the theorems above at a call on the
    sample platform, with its conditions checked by evaluation. *)

Section Witnesses.

Local Existing Instance Sample.platform.

Import Sample.

(** A GET of a missing page without a status sink: the 404 is the error. *)
Lemma status_error_without_sink_witness :
  let r := call GET defaultClient Background "https://example/missing" Nil
             (Ptr 1%positive) [] empty_heap in
  result_of r = Some (errors_New ("HTTP error: " +:+ http.Status not_found))
  /\ unmarshalled (events_of r) = []
  /\ heap_of r = heap_after_options [] empty_heap.
Proof.
  apply (status_error_without_sink GET defaultClient Background
           "https://example/missing" Nil (Ptr 1%positive) [] empty_heap
           DefaultClient (request "GET" "https://example/missing" [] ∅)
           not_found).
  - vm_compute. repeat constructor.
  - reflexivity.
  - vm_compute. discriminate.
Defined.

(** A GET of a missing page with a status sink: the body "not found" does
    not decode, and the call returns nil all the same. *)
Lemma decode_failure_outcome_witness :
  result_of (call GET defaultClient Background "https://example/missing" Nil
               (Ptr 1%positive) [WithStatus (Some 2%positive)] empty_heap)
  = None.
Proof.
  refine (proj1 (proj2 (proj2
            (decode_failure_outcome GET defaultClient Background
               "https://example/missing" Nil (Ptr 1%positive)
               [WithStatus (Some 2%positive)] empty_heap
               DefaultClient (request "GET" "https://example/missing" [] ∅)
               not_found (bytes_of "not found") (Ptr 1%positive)
               (errors_New "invalid character in JSON input") _ _))) _ _).
  - vm_compute. repeat constructor.
  - vm_compute. repeat constructor.
  - vm_compute. eexists. reflexivity.
  - vm_compute. discriminate.
Defined.

(** The same call: the sink, location 2, holds 404 afterwards. *)
Lemma status_sink_receives_code_witness :
  vars (heap_of (call GET defaultClient Background "https://example/missing"
                   Nil (Ptr 1%positive) [WithStatus (Some 2%positive)]
                   empty_heap)) !! 2%positive
  = Some (Int (http.StatusCode not_found)).
Proof.
  refine (proj2 (proj2
            (status_sink_receives_code GET defaultClient Background
               "https://example/missing" Nil (Ptr 1%positive)
               [WithStatus (Some 2%positive)] empty_heap
               DefaultClient (request "GET" "https://example/missing" [] ∅)
               not_found 2%positive _ _)) _).
  - vm_compute. repeat constructor.
  - reflexivity.
  - intros data h0. unfold unmarshal, heap_of. simpl. unfold Unmarshal.
    destruct (decode data); simpl.
    + apply lookup_insert_ne. discriminate.
    + reflexivity.
Defined.

(** A POST whose options ask for text/plain under a lower-case name: the
    request that leaves says application/json. *)
Lemma content_type_policy_witness :
  let req := request "POST" "https://example/echo" (quoted (bytes_of "hi"))
               {["Content-Type" := ["application/json"]]} in
  http.Header req =
    Header_Set "Content-Type" "application/json"
      (headers_from
         (map_range
            (map_entries
               (Headers (options_of [WithHeader "content-type" "text/plain"]
                           empty_heap))
               (heap_after_options [WithHeader "content-type" "text/plain"]
                  empty_heap))))
  /\ http.Header req !! CanonicalMIMEHeaderKey "Content-Type" =
     Some ["application/json"]
  /\ Header_Get (http.Header req) "Content-Type" = "application/json".
Proof.
  apply (content_type_policy POST defaultClient Background
           "https://example/echo" (Str "hi") (Ptr 1%positive)
           [WithHeader "content-type" "text/plain"] empty_heap DefaultClient
           (request "POST" "https://example/echo" (quoted (bytes_of "hi"))
              {["Content-Type" := ["application/json"]]})
           (inl (ok (quoted (bytes_of "hi"))))).
  vm_compute. repeat constructor.
Defined.

(** A POST of a func value: encoding/json refuses it, the call reports the
    failed construction and nothing is dispatched. *)
Lemma marshal_failure_aborts_witness :
  let r := call POST defaultClient Background "https://example/echo" Func
             (Ptr 1%positive) [] empty_heap in
  let failure :=
    fmt_Errorf ("failed to create " +:+ verb_name POST +:+ " request")
      (fmt_Errorf "failed to marshal request body"
         (errors_New "json: unsupported type: func()")) in
  result_of r = Some failure
  /\ wraps failure (errors_New "json: unsupported type: func()")
  /\ Error failure =
     "failed to create " +:+ verb_name POST
       +:+ " request: failed to marshal request body: "
       +:+ Error (errors_New "json: unsupported type: func()")
  /\ dispatched (events_of r) = []
  /\ Func = Func /\ body_of POST Func = Func.
Proof.
  apply (marshal_failure_aborts POST defaultClient Background
           "https://example/echo" Func (Ptr 1%positive) [] empty_heap
           Func []).
  vm_compute. repeat constructor.
Defined.

(** A client with a transport of its own, and a call that overrides it:
    the request goes through the transport of the call. *)
Lemma transport_precedence_witness :
  teapot =
  match Options_Client (options_of [WithClient teapot] empty_heap) with
  | Some override => override
  | None =>
      match Client_Client (mkClient (Some unreachable) None None) with
      | Some own => own
      | None => http_DefaultClient
      end
  end.
Proof.
  apply (transport_precedence GET (mkClient (Some unreachable) None None)
           Background "https://example/anything" Nil Nil
           [WithClient teapot] empty_heap teapot
           (request "GET" "https://example/anything" [] ∅)
           (http.Do teapot (request "GET" "https://example/anything" [] ∅))).
  vm_compute. repeat constructor.
Defined.

(** [WithHeader "A" "1"] followed by [WithHeaders] of the caller's map
    [{"B": "2"}]: the request has the header B and no header A. *)
Lemma WithHeaders_replaces_witness :
  let pre := [WithHeader "A" "1"] in
  let m := Some caller_map in
  let req := request "GET" "https://example/pokemon/pikachu" []
               {["B" := ["2"]]} in
  Headers (options_of (pre ++ [WithHeaders m]) caller_heap) = m
  /\ heap_after_options (pre ++ [WithHeaders m]) caller_heap =
     heap_after_options pre caller_heap
  /\ http.Header req =
     headers_from
       (map_range (map_entries m (heap_after_options pre caller_heap)))
  /\ http.Header req !! CanonicalMIMEHeaderKey "A" = None.
Proof.
  cbv zeta.
  assert (EvDo DefaultClient
            (request "GET" "https://example/pokemon/pikachu" []
               {["B" := ["2"]]})
            (inl (ok (quoted (bytes_of "pikachu"))))
            ∈ events_of
                (call GET defaultClient Background
                   "https://example/pokemon/pikachu" Nil (Ptr 1%positive)
                   ([WithHeader "A" "1"] ++ [WithHeaders (Some caller_map)])
                   caller_heap)) as Hin
    by (vm_compute; repeat constructor).
  destruct (WithHeaders_replaces GET defaultClient Background
              "https://example/pokemon/pikachu" Nil (Ptr 1%positive)
              [WithHeader "A" "1"] (Some caller_map) caller_heap _ _ _ Hin)
    as (H1 & H2 & H3 & H4).
  split; [exact H1|]. split; [exact H2|]. split; [exact H3|].
  apply H4.
  - intros k Hk.
    replace (map_entries (Some caller_map)
               (heap_after_options [WithHeader "A" "1"] caller_heap))
      with ({["B" := "2"]} : gmap string string) in Hk
      by (vm_compute; reflexivity).
    apply elem_of_dom in Hk as [v Hv].
    apply lookup_singleton_Some in Hv as [<- _].
    vm_compute. discriminate.
  - discriminate.
Defined.

(** The header X set twice, at a GET on the sample platform. *)
Lemma later_option_wins_witness :
  http.Header (request "GET" "https://example/pokemon/pikachu" []
                 {["X" := ["2"]]})
  = {[CanonicalMIMEHeaderKey "X" := ["2"]]}.
Proof.
  apply (proj2 (proj2 (proj2 (proj2 (proj2 later_option_wins))))
           GET defaultClient Background "https://example/pokemon/pikachu"
           Nil (Ptr 1%positive) empty_heap DefaultClient
           (request "GET" "https://example/pokemon/pikachu" []
              {["X" := ["2"]]})
           (inl (ok (quoted (bytes_of "pikachu"))))).
  vm_compute. repeat constructor.
Defined.

(** A PUT of the []byte [{"a":1}] through the package-level function, with
    no result sink: one request leaves through the transport of the
    platform and carries the seven bytes as they are, the marshal function
    is not invoked, the body of the echoed response is closed and the call
    returns nil. *)
Lemma Put_delegates_witness :
  let r := Put Background "https://example/echo" (Bytes raw_json) Nil []
             empty_heap in
  dispatched (events_of r) =
    [(DefaultClient, request "PUT" "https://example/echo" raw_json ∅)]
  /\ marshalled (events_of r) = []
  /\ closed (events_of r) = [ok raw_json]
  /\ result_of r = None.
Proof.
  cbv zeta.
  pose proof (Put_delegates defaultClient Background "https://example/echo"
                (Bytes raw_json) Nil [] empty_heap) as T.
  cbv zeta in T. destruct T as (<- & Hd & Hm & Hresp & _).
  destruct (Hresp DefaultClient
              (request "PUT" "https://example/echo" raw_json ∅)
              (ok raw_json)) as (Hres & _ & Hcl).
  { vm_compute. repeat constructor. }
  split; [exact Hd|]. split; [exact Hm|]. split; [exact Hcl|].
  rewrite Hres. vm_compute. reflexivity.
Defined.

(** C1 on the code: a POST whose body is the []byte [{"a":1}].  The marshal
    function is invoked on the body, and the payload of the request is its
    output, the base64 text of the bytes in a JSON string, not the bytes. *)
Theorem byte_body_is_marshalled :
  let r := call POST defaultClient Background "https://example/echo"
             (Bytes raw_json) (Ptr 1%positive) [] empty_heap in
  marshalled (events_of r) = [Bytes raw_json]
  /\ (fun d => http.Body d.2) <$> dispatched (events_of r) =
     [raw_json_marshalled]
  /\ raw_json_marshalled <> raw_json.
Proof.
  cbv zeta. split; [vm_compute; reflexivity|].
  split; [vm_compute; reflexivity|]. discriminate.
Qed.

(** ** The scenarios of the specification, evaluated *)

Example get_pikachu :
  let r := Get Background "https://example/pokemon/pikachu" (Ptr 1%positive)
             [] empty_heap in
  result_of r = None /\ vars (heap_of r) !! 1%positive = Some (Str "pikachu").
Proof. vm_compute. split; reflexivity. Qed.

Example get_missing_with_status :
  let r := Get Background "https://example/missing" (Ptr 1%positive)
             [WithStatus (Some 2%positive)] empty_heap in
  result_of r = None
  /\ vars (heap_of r) !! 2%positive = Some (Int 404)
  /\ vars (heap_of r) !! 1%positive = None.
Proof. vm_compute. repeat split. Qed.

Example get_missing_without_status :
  let r := Get Background "https://example/missing" (Ptr 1%positive) []
             empty_heap in
  result_of r = Some (errors_New "HTTP error: 404 Not Found")
  /\ heap_of r = empty_heap.
Proof. vm_compute. split; reflexivity. Qed.

Example get_with_status_below_400 :
  let r := Get Background "https://example/pokemon/pikachu" (Ptr 1%positive)
             [WithStatus (Some 2%positive)] empty_heap in
  result_of r = None /\ vars (heap_of r) !! 2%positive = Some (Int 200).
Proof. vm_compute. split; reflexivity. Qed.

Example decode_error_below_400 :
  result_of (Get Background "https://example/echo" (Ptr 1%positive)
               [WithStatus (Some 2%positive)] empty_heap)
  = Some (fmt_Errorf "failed to unmarshal JSON response"
            (errors_New "invalid character in JSON input")).
Proof. vm_compute. reflexivity. Qed.

Example header_set_twice :
  (fun d => http.Header d.2)
    <$> dispatched
          (events_of (Get Background "https://example/pokemon/pikachu"
                        (Ptr 1%positive)
                        [WithHeader "X" "1"; WithHeader "X" "2"] empty_heap))
  = [{["X" := ["2"]]}].
Proof. vm_compute. reflexivity. Qed.

Example reused_map_keeps_later_writes :
  (fun d => http.Header d.2)
    <$> dispatched
          (events_of (Get Background "https://example/pokemon/pikachu"
                        (Ptr 1%positive)
                        [WithHeaders (Some caller_map); WithHeader "A" "1";
                         WithHeaders (Some caller_map)] caller_heap))
  = [{["A" := ["1"]; "B" := ["2"]]}].
Proof. vm_compute. reflexivity. Qed.

Example put_of_a_value_is_marshalled :
  let r := Put Background "https://example/echo" (Str "hi") (Ptr 1%positive)
             [] empty_heap in
  marshalled (events_of r) = [Str "hi"]
  /\ (fun d => http.Body d.2) <$> dispatched (events_of r) =
     [quoted (bytes_of "hi")]
  /\ result_of r = None
  /\ vars (heap_of r) !! 1%positive = Some (Str "hi").
Proof. vm_compute. repeat split. Qed.

Example put_without_context :
  let r := Put None "https://example/echo" (Bytes raw_json) Nil []
             empty_heap in
  dispatched (events_of r) = []
  /\ result_of r =
     Some (fmt_Errorf "failed to create PUT request"
             (fmt_Errorf "failed to create request"
                (errors_New "net/http: nil Context"))).
Proof. vm_compute. split; reflexivity. Qed.

Example put_sends_no_content_type :
  (fun d => (http.Method d.2, http.Header d.2))
    <$> dispatched
          (events_of (Put Background "https://example/echo" (Str "hi")
                        (Ptr 1%positive) [] empty_heap))
  = [("PUT", ∅)].
Proof. vm_compute. reflexivity. Qed.

End Witnesses.

(** * Further properties of client.go and options.go

    The statements of this part are about the four methods client.go
    defines: they carry the condition [v <> PUT]. *)

Section Coverage.

Context `{Platform}.

Lemma received_app t1 t2 : received (t1 ++ t2) = received t1 ++ received t2.
Proof. apply omap_app. Qed.

Lemma closed_app t1 t2 : closed (t1 ++ t2) = closed t1 ++ closed t2.
Proof. apply omap_app. Qed.

(** What the events of [buildRequest] and of [parseResponse] can be. *)
Lemma buildRequest_events_cases c ctx method url body o h :
  events_of (buildRequest c ctx method url body o h) = []
  \/ exists r, events_of (buildRequest c ctx method url body o h) =
               [EvMarshal body r].
Proof.
  rewrite buildRequest_events. destruct (is_nil body); eauto.
Qed.

Lemma parseResponse_events_cases c resp result o h :
  events_of (parseResponse c resp result o h) = []
  \/ exists data e, events_of (parseResponse c resp result o h) =
                    [EvUnmarshal data result e].
Proof.
  rewrite parseResponse_run. cbv zeta.
  destruct (bool_decide (Status o = None) && (400 <=? http.StatusCode resp));
    [left; reflexivity|].
  destruct (http.ReadAll resp) as [body [err|]]; [left; reflexivity|].
  destruct (is_nil result); [left; reflexivity|].
  right. eauto.
Qed.

(** The three ways a call can go, with the whole of its outcome. *)
Lemma call_cases v c ctx url body result opts h :
  v <> PUT ->
  let o := options_of opts h in
  let h1 := heap_after_options opts h in
  let b := buildRequest c ctx (verb_name v) url (body_of v body) o h1 in
  let run := call v c ctx url body result opts h in
  (exists e,
      result_of b = inr e
      /\ run = (Some (fmt_Errorf ("failed to create " +:+ verb_name v
                                    +:+ " request") e), h1, events_of b))
  \/ (exists req0 e,
        let req :=
          if forces_content_type v
          then set_Header "Content-Type" "application/json" req0
          else req0 in
        result_of b = inl req0
        /\ http.Do (getClient c o) req = inr e
        /\ run = (Some (fmt_Errorf ("failed to make " +:+ verb_name v
                                      +:+ " request") e), h1,
                  events_of b ++ [EvDo (getClient c o) req (inr e)]))
  \/ (exists req0 resp,
        let req :=
          if forces_content_type v
          then set_Header "Content-Type" "application/json" req0
          else req0 in
        let p := parseResponse c resp result o h1 in
        result_of b = inl req0
        /\ http.Do (getClient c o) req = inl resp
        /\ run = (result_of p, heap_of p,
                  events_of b ++ EvDo (getClient c o) req (inl resp)
                    :: events_of p ++ [EvClose resp])).
Proof.
  intros Hv. cbv zeta. rewrite call_verb_call by exact Hv.
  rewrite verb_call_run. cbv zeta.
  destruct (result_of (buildRequest _ _ _ _ _ _ _)) as [req0|e].
  - destruct (http.Do _ _) as [resp|e] eqn:Hdo.
    + right. right. exists req0, resp. rewrite Hdo. auto.
    + right. left. exists req0, e. rewrite Hdo. auto.
  - left. eauto.
Qed.

Ltac mem Hin :=
  first
    [ apply elem_of_nil in Hin; destruct Hin
    | apply elem_of_cons in Hin; destruct Hin as [Hin|Hin];
      [try discriminate Hin | mem Hin] ].

(** Splits a call into its three ways and its log into explicit lists. *)
Ltac call_split v c ctx url body result opts h :=
  let e0 := fresh "e0" in
  let req0 := fresh "req0" in
  let resp0 := fresh "resp0" in
  let Hb := fresh "Hb" in
  let Hdo := fresh "Hdo" in
  let Hrun := fresh "Hrun" in
  let r0 := fresh "r0" in
  let data0 := fresh "data0" in
  let Hev := fresh "Hev" in
  let Hpev := fresh "Hpev" in
  destruct (call_cases v c ctx url body result opts h ltac:(assumption))
    as [(e0 & Hb & Hrun)
       |[(req0 & e0 & Hb & Hdo & Hrun)|(req0 & resp0 & Hb & Hdo & Hrun)]];
  cbv zeta in Hrun;
  destruct (buildRequest_events_cases c ctx (verb_name v) url
              (body_of v body) (options_of opts h)
              (heap_after_options opts h)) as [Hev|[r0 Hev]];
  rewrite Hev in Hrun;
  try (destruct (parseResponse_events_cases c resp0 result
                   (options_of opts h) (heap_after_options opts h))
         as [Hpev|(data0 & e1 & Hpev)];
       rewrite Hpev in Hrun);
  simpl in Hrun.

(** X1. When the transport fails, the call returns "failed to make <VERB>
    request" wrapping the failure of the transport; nothing is decoded,
    no body is closed, and the store (the status sink with it) is as the
    options left it. *)
Theorem transport_failure_outcome v c ctx url body result opts h t req e :
  v <> PUT ->
  EvDo t req (inr e) ∈ events_of (call v c ctx url body result opts h) ->
  let r := call v c ctx url body result opts h in
  result_of r =
    Some (fmt_Errorf ("failed to make " +:+ verb_name v +:+ " request") e)
  /\ unmarshalled (events_of r) = []
  /\ closed (events_of r) = []
  /\ received (events_of r) = []
  /\ heap_of r = heap_after_options opts h.
Proof.
  intros Hv Hin. cbv zeta.
  call_split v c ctx url body result opts h; rewrite Hrun in Hin |- *;
    unfold events_of in Hin; simpl in Hin; mem Hin;
    injection Hin as _ _ ->; repeat split.
Qed.

(** X2. When the request cannot be built (the marshal function fails, the
    context is nil, or the URL does not parse), the call returns "failed to
    create <VERB> request" wrapping the failure; no transport is invoked,
    nothing is decoded or closed, and the store is as the options left
    it. *)
Theorem construction_failure_outcome v c ctx url body result opts h e :
  v <> PUT ->
  built v c ctx url body opts h = inr e ->
  let r := call v c ctx url body result opts h in
  result_of r =
    Some (fmt_Errorf ("failed to create " +:+ verb_name v +:+ " request") e)
  /\ dispatched (events_of r) = []
  /\ unmarshalled (events_of r) = []
  /\ closed (events_of r) = []
  /\ heap_of r = heap_after_options opts h.
Proof.
  intros Hv Hbuilt. cbv zeta. unfold built in Hbuilt.
  call_split v c ctx url body result opts h; rewrite Hrun;
    rewrite Hbuilt in Hb; try discriminate Hb;
    injection Hb as <-; repeat split.
Qed.

(** X7. A call invokes its collaborators in a fixed order and each at most
    once: the marshal function, then the transport, then the unmarshal
    function, then the closing of the body.  Nothing is retried. *)
Theorem call_steps_in_order v c ctx url body result opts h :
  v <> PUT ->
  StronglySorted lt (phase <$> events_of (call v c ctx url body result opts h)).
Proof.
  intros Hv.
  call_split v c ctx url body result opts h; rewrite Hrun;
    unfold events_of; simpl;
    repeat (apply SSorted_cons; [|repeat constructor; lia]);
    apply SSorted_nil.
Qed.

Ltac here :=
  repeat first [apply list_elem_of_here | apply list_elem_of_further].

Lemma status_guard_false (o : Options) (code : Z) :
  is_Some (Status o) \/ code < 400 ->
  bool_decide (Status o = None) && (400 <=? code) = false.
Proof.
  intros [[p Hp]|Hlt].
  - rewrite Hp. rewrite bool_decide_eq_false_2 by discriminate. reflexivity.
  - apply Z.leb_gt in Hlt. rewrite Hlt. apply andb_false_r.
Qed.

Lemma status_guard_false_inv (o : Options) (code : Z) :
  bool_decide (Status o = None) && (400 <=? code) = false ->
  is_Some (Status o) \/ code < 400.
Proof.
  intros Hg. destruct (Status o) as [p|]; [left; eauto|].
  right. rewrite bool_decide_eq_true_2 in Hg by reflexivity.
  simpl in Hg. apply Z.leb_gt. exact Hg.
Qed.

(** X3. When the body of a received response cannot be read, the call returns
    "failed to read response body" wrapping the failure, unless the status
    rule (no status sink, code at least 400) has returned before; the
    unmarshal function is not invoked, the body is closed, and the store
    differs from the one the options left by the captured status only. *)
Theorem read_failure_outcome v c ctx url body result opts h t req resp e :
  v <> PUT ->
  EvDo t req (inl resp) ∈ events_of (call v c ctx url body result opts h) ->
  (http.ReadAll resp).2 = Some e ->
  is_Some (Status (options_of opts h)) \/ http.StatusCode resp < 400 ->
  let r := call v c ctx url body result opts h in
  result_of r = Some (fmt_Errorf "failed to read response body" e)
  /\ unmarshalled (events_of r) = []
  /\ closed (events_of r) = [resp]
  /\ heap_of r =
     heap_of (capture_status resp (options_of opts h)
                (heap_after_options opts h)).
Proof.
  intros Hv Hdo Hread Hguard. cbv zeta. rewrite call_verb_call in * by exact Hv.
  destruct (verb_call_response _ _ _ _ _ _ _ _ _ _ _ _ Hdo)
    as (req0 & Hb & _ & _ & _ & Hrun).
  rewrite Hrun. rewrite parseResponse_run. cbv zeta.
  rewrite (status_guard_false _ _ Hguard).
  destruct (http.ReadAll resp) as [partial [err|]]; simpl in Hread;
    [|discriminate].
  injection Hread as ->.
  destruct (buildRequest_events_cases c ctx (verb_name v) url
              (body_of v body) (options_of opts h)
              (heap_after_options opts h)) as [Hev|[r0 Hev]];
    rewrite Hev; repeat split.
Qed.

Lemma parseResponse_decode_success c resp result o h data sink :
  EvUnmarshal data sink None ∈ events_of (parseResponse c resp result o h) ->
  result_of (parseResponse c resp result o h) = None
  /\ sink = result
  /\ heap_of (parseResponse c resp result o h) =
     heap_of (unmarshal c data result (heap_of (capture_status resp o h))).
Proof.
  intros Hin.
  destruct (parseResponse_event _ _ _ _ _ _ Hin)
    as (Heq & Hnil & Hread & Hguard).
  rewrite parseResponse_run. cbv zeta. rewrite Hguard.
  destruct (http.ReadAll resp) as [body [err|]]; simpl in *;
    [discriminate|].
  rewrite Hnil. injection Heq as -> -> Hres.
  unfold result_of at 1. simpl. rewrite <- Hres. repeat split.
Qed.

(** An unmarshal event of a call belongs to the interpretation of a
    response the call received. *)
Lemma call_unmarshal_event v c ctx url body result opts h data sink e :
  v <> PUT ->
  EvUnmarshal data sink e ∈ events_of (call v c ctx url body result opts h) ->
  exists resp,
    let p := parseResponse c resp result (options_of opts h)
               (heap_after_options opts h) in
    EvUnmarshal data sink e ∈ events_of p
    /\ result_of (call v c ctx url body result opts h) = result_of p
    /\ heap_of (call v c ctx url body result opts h) = heap_of p
    /\ received (events_of (call v c ctx url body result opts h)) = [resp].
Proof.
  intros Hv Hin.
  destruct (call_cases v c ctx url body result opts h ltac:(assumption))
    as [(e0 & Hb & Hrun)
       |[(req0 & e0 & Hb & Hdo & Hrun)|(req0 & resp0 & Hb & Hdo & Hrun)]];
    cbv zeta in Hrun; rewrite Hrun in Hin |- *; unfold events_of at 1 in Hin;
    simpl in Hin.
  - apply buildRequest_event in Hin as [? _]. discriminate.
  - rewrite elem_of_app in Hin. destruct Hin as [Hin|Hin].
    + apply buildRequest_event in Hin as [? _]. discriminate.
    + mem Hin.
  - rewrite elem_of_app, elem_of_cons, elem_of_app in Hin.
    destruct Hin as [Hin|[Heq|[Hin|Hin]]].
    + apply buildRequest_event in Hin as [? _]. discriminate.
    + discriminate.
    + exists resp0. cbv zeta. split; [exact Hin|].
      split; [reflexivity|]. split; [reflexivity|].
      unfold events_of at 1. simpl. rewrite received_app. simpl.
      rewrite received_app.
      destruct (buildRequest_events_cases c ctx (verb_name v) url
                  (body_of v body) (options_of opts h)
                  (heap_after_options opts h)) as [Hev|[r0 Hev]];
        rewrite Hev;
        destruct (parseResponse_events_cases c resp0 result
                    (options_of opts h) (heap_after_options opts h))
          as [Hpev|(data0 & e1 & Hpev)];
        rewrite Hpev; reflexivity.
    + mem Hin.
Qed.

(** X4. When the unmarshal function succeeds the call returns nil, whatever the
    status code of the response (decoding happens at a code of 400 or more
    only under a status sink); the store is the one the unmarshal function
    left. *)
Theorem decode_success_outcome v c ctx url body result opts h data sink :
  v <> PUT ->
  EvUnmarshal data sink None
    ∈ events_of (call v c ctx url body result opts h) ->
  let r := call v c ctx url body result opts h in
  result_of r = None
  /\ sink = result
  /\ exists resp,
       received (events_of r) = [resp]
       /\ closed (events_of r) = [resp]
       /\ (is_Some (Status (options_of opts h)) \/ http.StatusCode resp < 400)
       /\ heap_of r =
          heap_of (unmarshal c data result
                     (heap_of (capture_status resp (options_of opts h)
                                 (heap_after_options opts h)))).
Proof.
  intros Hv Hin. cbv zeta.
  destruct (call_unmarshal_event _ _ _ _ _ _ _ _ _ _ _ Hv Hin)
    as (resp & Hp & Hres & Hheap & Hrec).
  cbv zeta in *.
  destruct (parseResponse_decode_success _ _ _ _ _ _ _ Hp)
    as (Hnone & Hsink & Hh).
  apply parseResponse_event in Hp as (_ & _ & _ & Hguard).
  rewrite Hres, Hheap. split; [exact Hnone|]. split; [exact Hsink|].
  exists resp. split; [exact Hrec|]. split.
  - call_split v c ctx url body result opts h;
      rewrite Hrun in Hrec |- *; unfold events_of in *; simpl in *;
      try discriminate Hrec; injection Hrec as ->; reflexivity.
  - split; [apply status_guard_false_inv; exact Hguard|exact Hh].
Qed.

Lemma parseResponse_nil_result c resp o h :
  events_of (parseResponse c resp Nil o h) = []
  /\ heap_of (parseResponse c resp Nil o h) = heap_of (capture_status resp o h)
  /\ ((http.ReadAll resp).2 = None ->
      is_Some (Status o) \/ http.StatusCode resp < 400 ->
      result_of (parseResponse c resp Nil o h) = None).
Proof.
  rewrite parseResponse_run. cbv zeta.
  destruct (bool_decide (Status o = None) && (400 <=? http.StatusCode resp))
    eqn:Hg.
  - repeat split. intros _ Hguard.
    rewrite (status_guard_false _ _ Hguard) in Hg. discriminate.
  - destruct (http.ReadAll resp) as [data [err|]]; simpl; repeat split.
    discriminate.
Qed.

(** X5. With a nil result sink the unmarshal function is never invoked; when
    the body of the received response reads and the status rule does not
    apply, the call returns nil, and the store differs from the one the
    options left by the captured status only. *)
Theorem nil_result_outcome v c ctx url body opts h :
  v <> PUT ->
  let r := call v c ctx url body Nil opts h in
  unmarshalled (events_of r) = []
  /\ forall t req resp,
       EvDo t req (inl resp) ∈ events_of r ->
       heap_of r =
         heap_of (capture_status resp (options_of opts h)
                    (heap_after_options opts h))
       /\ ((http.ReadAll resp).2 = None ->
           is_Some (Status (options_of opts h))
           \/ http.StatusCode resp < 400 ->
           result_of r = None).
Proof.
  intros Hv. cbv zeta. split.
  - destruct (call_cases v c ctx url body Nil opts h ltac:(assumption))
      as [(e0 & Hb & Hrun)
         |[(req0 & e0 & Hb & Hdo & Hrun)|(req0 & resp0 & Hb & Hdo & Hrun)]];
      cbv zeta in Hrun; rewrite Hrun; unfold events_of at 1; simpl;
      rewrite ?unmarshalled_app; simpl; rewrite ?unmarshalled_app;
      try (destruct (parseResponse_nil_result c resp0 (options_of opts h)
                       (heap_after_options opts h)) as (-> & _));
      destruct (buildRequest_events_cases c ctx (verb_name v) url
                  (body_of v body) (options_of opts h)
                  (heap_after_options opts h)) as [Hev|[r0 Hev]];
      rewrite Hev; reflexivity.
  - intros t req resp Hdo. rewrite call_verb_call in * by exact Hv.
    destruct (verb_call_response _ _ _ _ _ _ _ _ _ _ _ _ Hdo)
      as (req0 & Hb & _ & _ & _ & Hrun).
    rewrite Hrun.
    destruct (parseResponse_nil_result c resp (options_of opts h)
                (heap_after_options opts h)) as (_ & Hh & Hres).
    split; [exact Hh|exact Hres].
Qed.

(** X6. The bodies a call closes are the responses it received: the body of a
    received response is closed once on every way out of the call, and
    nothing is closed when no response arrived. *)
Theorem closed_what_was_received v c ctx url body result opts h :
  v <> PUT ->
  closed (events_of (call v c ctx url body result opts h)) =
  received (events_of (call v c ctx url body result opts h))
  /\ (length (received (events_of (call v c ctx url body result opts h)))
      <= 1)%nat.
Proof.
  intros Hv.
  call_split v c ctx url body result opts h; rewrite Hrun;
    unfold events_of; simpl; split; auto.
Qed.

(** X8. The marshal function is invoked exactly when Post or Patch get a
    non-nil body, once and on that body; Get and Delete never invoke it,
    whatever the call does later. *)
Theorem marshal_invocations v c ctx url body result opts h :
  v <> PUT ->
  marshalled (events_of (call v c ctx url body result opts h)) =
  match v with
  | GET | DELETE => []
  | _ => if is_nil body then [] else [body]
  end.
Proof.
  intros Hv.
  assert (marshalled (events_of (call v c ctx url body result opts h)) =
          if is_nil (body_of v body) then [] else [body_of v body]) as ->.
  { pose proof (buildRequest_events c ctx (verb_name v) url (body_of v body)
                  (options_of opts h) (heap_after_options opts h)) as Hbe.
    call_split v c ctx url body result opts h; rewrite Hrun;
      rewrite Hev in Hbe; unfold events_of; simpl;
      destruct (is_nil (body_of v body)); try discriminate Hbe;
      reflexivity. }
  destruct v; reflexivity.
Qed.

(** X9. A call returns nil only after a transport answered: there is then a
    received response, its body is closed, and (no status sink given) its
    status code is below 400. *)
Theorem success_needs_response v c ctx url body result opts h :
  v <> PUT ->
  result_of (call v c ctx url body result opts h) = None ->
  exists t req resp,
    EvDo t req (inl resp) ∈ events_of (call v c ctx url body result opts h)
    /\ closed (events_of (call v c ctx url body result opts h)) = [resp]
    /\ (Status (options_of opts h) = None -> http.StatusCode resp < 400).
Proof.
  intros Hv Hres.
  destruct (call_cases v c ctx url body result opts h ltac:(assumption))
    as [(e0 & Hb & Hrun)
       |[(req0 & e0 & Hb & Hdo & Hrun)|(req0 & resp0 & Hb & Hdo & Hrun)]];
    cbv zeta in Hrun; rewrite Hrun in Hres |- *;
    unfold result_of in Hres; simpl in Hres; try discriminate Hres.
  eexists _, _, resp0. split.
  - unfold events_of at 1. simpl. rewrite elem_of_app. right. here.
  - split.
    + unfold events_of at 1. simpl. rewrite closed_app. simpl.
      rewrite closed_app.
      destruct (buildRequest_events_cases c ctx (verb_name v) url
                  (body_of v body) (options_of opts h)
                  (heap_after_options opts h)) as [Hev|[r0 Hev]];
        rewrite Hev;
        destruct (parseResponse_events_cases c resp0 result
                    (options_of opts h) (heap_after_options opts h))
          as [Hpev|(data0 & e1 & Hpev)];
        rewrite Hpev; reflexivity.
    + intros Hs. rewrite parseResponse_run in Hres. cbv zeta in Hres.
      rewrite Hs in Hres. rewrite bool_decide_eq_true_2 in Hres by reflexivity.
      destruct (400 <=? http.StatusCode resp0) eqn:Hc;
        [discriminate Hres|]. apply Z.leb_gt. exact Hc.
Qed.

Lemma parseResponse_error_shape v c resp result o h err :
  result_of (parseResponse c resp result o h) = Some err -> call_error v err.
Proof.
  rewrite parseResponse_run. cbv zeta.
  destruct (bool_decide (Status o = None) && (400 <=? http.StatusCode resp)).
  - intros [= <-]. constructor.
  - destruct (http.ReadAll resp) as [data [e|]].
    + intros [= <-]. constructor.
    + destruct (is_nil result); [discriminate|].
      unfold result_of at 1. simpl.
      destruct (result_of (unmarshal _ _ _ _)) as [e|]; [|discriminate].
      destruct (bool_decide (Status o <> None)
                && (400 <=? http.StatusCode resp)); [discriminate|].
      intros [= <-]. constructor.
Qed.

(** X10. Whatever error a call returns has one of five shapes: "failed to
    create <VERB> request" or "failed to make <VERB> request" wrapping a
    cause, "HTTP error: <status line>" wrapping nothing, and "failed to
    read response body" or "failed to unmarshal JSON response" wrapping a
    cause (the last three do not name the verb).  No error of a
    collaborator is returned bare. *)
Theorem errors_have_context v c ctx url body result opts h err :
  v <> PUT ->
  result_of (call v c ctx url body result opts h) = Some err ->
  call_error v err.
Proof.
  intros Hv Hres.
  destruct (call_cases v c ctx url body result opts h ltac:(assumption))
    as [(e0 & Hb & Hrun)
       |[(req0 & e0 & Hb & Hdo & Hrun)|(req0 & resp0 & Hb & Hdo & Hrun)]];
    cbv zeta in Hrun; rewrite Hrun in Hres;
    unfold result_of at 1 in Hres; simpl in Hres.
  - injection Hres as <-. constructor.
  - injection Hres as <-. constructor.
  - eapply parseResponse_error_shape. exact Hres.
Qed.

(** X11. The request a call dispatches carries the verb of the method, the URL
    and the context of the call unchanged, and as payload what the marshal
    function returned for the body (nothing for Get, Delete and a nil
    body). *)
Theorem dispatched_request_fields v c ctx url body result opts h t req r :
  v <> PUT ->
  EvDo t req r ∈ events_of (call v c ctx url body result opts h) ->
  http.Method req = verb_name v /\ http.URL req = url /\ http.Ctx req = ctx
  /\ http.Body req =
     match v with
     | GET | DELETE => []
     | _ =>
         if is_nil body then []
         else (result_of (marshal c body (heap_after_options opts h))).1
     end
  /\ ctx <> None.
Proof.
  intros Hv Hin.
  destruct (call_request_fields _ _ _ _ _ _ _ _ _ _ _ Hin)
    as (Hm & Hu & Hc & Hb).
  split; [exact Hm|]. split; [exact Hu|]. split; [exact Hc|]. split.
  - rewrite Hb. destruct v; try reflexivity. contradiction.
  - rewrite call_verb_call in Hin by exact Hv. apply dispatched_elem in Hin.
    rewrite verb_call_dispatched in Hin.
    destruct (result_of (buildRequest _ _ _ _ _ _ _)) as [req0|e] eqn:Hbd;
      [|inversion Hin].
    intros ->. revert Hbd.
    unfold buildRequest, bind, marshal, ret, result_of, NewRequestWithContext.
    destruct (is_nil (body_of v body)); simpl; [discriminate|].
    destruct (match MarshalFunc c with
              | Some f => f (body_of v body) (heap_after_options opts h)
              | None => json_Marshal (body_of v body)
                          (heap_after_options opts h)
              end) as [bs [e|]]; simpl; discriminate.
Qed.

(** ** options.go: the store under the options *)

Lemma keeps_reference_fold opts o h (D : gset loc) :
  Forall keeps_reference opts ->
  D ⊆ dom (maps h) ->
  (forall m, Headers o = Some m -> m ∉ D) ->
  forall l, l ∈ D -> maps (apply_options opts o h).2 !! l = maps h !! l.
Proof.
  intros Hall. revert o h.
  induction Hall as [|opt opts Hopt _ IH]; intros o h HD Ho l Hl; simpl.
  - reflexivity.
  - destruct (opt o h) as [o1 h1] eqn:E.
    assert (D ⊆ dom (maps h1)
            /\ (forall m, Headers o1 = Some m -> m ∉ D)
            /\ maps h1 !! l = maps h !! l) as (HD1 & Ho1 & Hl1).
    { destruct Hopt as [key value|status].
      - unfold WithHeader in E. destruct (Headers o) as [m|] eqn:Hm.
        + injection E as <- <-. simpl.
          assert (m ∉ D) as Hm' by (apply Ho; reflexivity).
          split; [rewrite dom_insert; set_solver|].
          split; [intros m0 [= <-]; exact Hm'|].
          apply lookup_insert_ne. intros ->. contradiction.
        + unfold make_map in E. injection E as <- <-. simpl.
          pose proof (is_fresh (dom (maps h))) as Hfresh.
          assert (fresh (dom (maps h)) ∉ D) as Hm' by set_solver.
          split; [rewrite !dom_insert; set_solver|].
          split; [intros m0 [= <-]; exact Hm'|].
          rewrite !lookup_insert_ne
            by (intros Heq; apply Hm'; rewrite Heq; exact Hl).
          reflexivity.
      - unfold WithStatus in E. injection E as <- <-. simpl.
        split; [exact HD|]. split; [exact Ho|reflexivity]. }
    rewrite (IH o1 h1 HD1 Ho1 l Hl). exact Hl1.
Qed.

(** X14. Without [WithHeaders] among the options, folding them writes to a map
    object of its own making only: every map object the store held before
    is unchanged, and so are the variables. *)
Theorem options_leave_caller_maps opts h :
  Forall keeps_reference opts ->
  (forall l, l ∈ dom (maps h) ->
     maps (heap_of (buildOptions opts h)) !! l = maps h !! l)
  /\ vars (heap_of (buildOptions opts h)) = vars h.
Proof.
  intros Hall. split.
  - intros l Hl. unfold buildOptions, heap_of. simpl.
    apply (keeps_reference_fold opts zero_Options h (dom (maps h)));
      [exact Hall|reflexivity|discriminate|exact Hl].
  - unfold buildOptions, heap_of. simpl.
    apply builtin_options_keep_vars.
    eapply Forall_impl; [exact Hall|].
    intros opt [key value|status]; constructor.
Qed.

(** X15. [WithHeader] after [WithHeaders m] writes into the map object of the
    caller: once the options are folded, the caller's map [m] holds the
    new entry on top of what it held, and it is still the header map of
    the options. *)
Theorem WithHeader_writes_into_given_map pre m key value h :
  let opts := pre ++ [WithHeaders (Some m); WithHeader key value] in
  Headers (result_of (buildOptions opts h)) = Some m
  /\ maps (heap_of (buildOptions opts h)) !! m =
     Some (<[key := value]>
             (map_entries (Some m) (heap_of (buildOptions pre h))))
  /\ forall l, l <> m ->
       maps (heap_of (buildOptions opts h)) !! l =
       maps (heap_of (buildOptions pre h)) !! l.
Proof.
  cbv zeta. unfold buildOptions, result_of, heap_of. simpl.
  rewrite apply_options_app, apply_options_pair.
  destruct (apply_options pre zero_Options h) as [o1 h1]. simpl.
  split; [reflexivity|]. split.
  - apply lookup_insert_eq.
  - intros l Hl. apply lookup_insert_ne. auto.
Qed.

Lemma map_assign_commute m k1 v1 k2 v2 h :
  k1 <> k2 ->
  map_assign m k2 v2 (map_assign m k1 v1 h) =
  map_assign m k1 v1 (map_assign m k2 v2 h).
Proof.
  intros Hne. unfold map_assign, map_entries. simpl.
  rewrite !lookup_insert_eq. simpl. rewrite !insert_insert_eq.
  rewrite (insert_insert_ne _ k2 k1) by auto. reflexivity.
Qed.

(** X16. Two [WithHeader] options on different keys can be swapped anywhere in
    the option list: the options and the store that result are the same.
    [WithStatus] can be swapped with either header option. *)
Theorem header_options_commute pre post k1 v1 k2 v2 o h :
  k1 <> k2 ->
  apply_options (pre ++ [WithHeader k1 v1; WithHeader k2 v2] ++ post) o h =
  apply_options (pre ++ [WithHeader k2 v2; WithHeader k1 v1] ++ post) o h
  /\ (forall status,
        apply_options (pre ++ [WithStatus status; WithHeader k1 v1] ++ post)
          o h =
        apply_options (pre ++ [WithHeader k1 v1; WithStatus status] ++ post)
          o h)
  /\ (forall status m,
        apply_options (pre ++ [WithStatus status; WithHeaders m] ++ post) o h
        = apply_options (pre ++ [WithHeaders m; WithStatus status] ++ post)
            o h).
Proof.
  intros Hne.
  assert (forall a b a' b' : Option,
             (forall o1 h1, apply_options [a; b] o1 h1 =
                            apply_options [a'; b'] o1 h1) ->
             apply_options (pre ++ [a; b] ++ post) o h =
             apply_options (pre ++ [a'; b'] ++ post) o h) as Hswap.
  { intros a b a' b' Hab.
    rewrite !apply_options_app. rewrite Hab. reflexivity. }
  split; [|split].
  - apply Hswap. intros o1 h1. rewrite !apply_options_pair.
    unfold WithHeader. destruct (Headers o1) as [m|]; simpl.
    + rewrite map_assign_commute by exact Hne. reflexivity.
    + rewrite map_assign_commute by exact Hne. reflexivity.
  - intros status. apply Hswap. intros o1 h1. rewrite !apply_options_pair.
    unfold WithHeader, WithStatus. simpl.
    destruct (Headers o1) as [m|]; reflexivity.
  - intros status m. apply Hswap. intros o1 h1. reflexivity.
Qed.

(** ** The headers that reach the transport *)

Lemma headers_fold_single entries hd :
  (forall name vs, hd !! name = Some vs -> exists value, vs = [value]) ->
  forall name vs,
    fold_left (fun hd kv => Header_Set kv.1 kv.2 hd) entries hd !! name
    = Some vs ->
    exists value, vs = [value].
Proof.
  revert hd. induction entries as [|[k v] entries IH]; intros hd Hhd; simpl.
  - exact Hhd.
  - apply IH. intros name vs. unfold Header_Set. simpl.
    rewrite lookup_insert. case_decide.
    + intros [= <-]. eauto.
    + apply Hhd.
Qed.

(** X12. Every header of a dispatched request has exactly one value: the
    headers are set, never appended, so two options (or two keys of a map)
    that name one header leave one value, not a list. *)
Theorem headers_are_single_valued v c ctx url body result opts h t req r :
  v <> PUT ->
  EvDo t req r ∈ events_of (call v c ctx url body result opts h) ->
  forall name vs,
    http.Header req !! name = Some vs -> exists value, vs = [value].
Proof.
  intros Hv Hin name vs.
  rewrite (call_request_headers _ _ _ _ _ _ _ _ _ _ _ Hin).
  assert (forall name vs,
             headers_from
               (map_range (map_entries (Headers (options_of opts h))
                             (heap_after_options opts h))) !! name
             = Some vs -> exists value, vs = [value]) as Huser.
  { apply headers_fold_single. intros n0 vs0. rewrite lookup_empty.
    discriminate. }
  destruct (forces_content_type v).
  - unfold Header_Set. rewrite lookup_insert. case_decide.
    + intros [= <-]. eauto.
    + apply Huser.
  - apply Huser.
Qed.

Lemma headers_fold_present entries hd key value :
  (key, value) ∈ entries ->
  (forall k v, (k, v) ∈ entries ->
     CanonicalMIMEHeaderKey k = CanonicalMIMEHeaderKey key ->
     (k, v) = (key, value)) ->
  fold_left (fun hd kv => Header_Set kv.1 kv.2 hd) entries hd
    !! CanonicalMIMEHeaderKey key
  = Some [value].
Proof.
  revert hd. induction entries as [|[k v] entries IH]; intros hd Hin Honly.
  - inversion Hin.
  - simpl. destruct (decide ((key, value) ∈ entries)) as [Hlater|Hnot].
    + apply IH; [exact Hlater|].
      intros k' v' Hin'. apply Honly. right. exact Hin'.
    + apply elem_of_cons in Hin as [Heq|Hin]; [|contradiction].
      injection Heq as <- <-.
      rewrite headers_fold_absent.
      * unfold Header_Set. simpl. apply lookup_insert_eq.
      * intros k' v' Hin' Hcanon.
        apply Hnot. rewrite <- (Honly k' v'); [exact Hin'| |exact Hcanon].
        right. exact Hin'.
Qed.

(** X13. A header of the options reaches the transport: when the header map of
    the options holds [key: value], no other key of the map names the same
    header, and the header is not the Content-Type a POST or PATCH forces,
    the dispatched request has that header with exactly that value. *)
Theorem option_header_is_sent v c ctx url body result opts h t req r
    key value :
  v <> PUT ->
  EvDo t req r ∈ events_of (call v c ctx url body result opts h) ->
  let entries :=
    map_entries (Headers (options_of opts h)) (heap_after_options opts h) in
  entries !! key = Some value ->
  (forall k, k ∈ dom entries ->
     CanonicalMIMEHeaderKey k = CanonicalMIMEHeaderKey key -> k = key) ->
  (forces_content_type v = true ->
     CanonicalMIMEHeaderKey key <> CanonicalMIMEHeaderKey "Content-Type") ->
  http.Header req !! CanonicalMIMEHeaderKey key = Some [value]
  /\ Header_Get (http.Header req) key = value.
Proof.
  intros Hv Hin entries Hkey Honly Hct.
  assert (http.Header req !! CanonicalMIMEHeaderKey key = Some [value])
    as Hsent.
  { rewrite (call_request_headers _ _ _ _ _ _ _ _ _ _ _ Hin).
    fold entries.
    assert (headers_from (map_range entries) !! CanonicalMIMEHeaderKey key
            = Some [value]) as Huser.
    { unfold headers_from. apply headers_fold_present.
      - apply map_range_elem. exact Hkey.
      - intros k v0 Hk%map_range_elem Hcanon.
        assert (k = key) as ->.
        { apply Honly; [|exact Hcanon]. apply elem_of_dom. eauto. }
        rewrite Hkey in Hk. injection Hk as ->. reflexivity. }
    destruct (forces_content_type v).
    - unfold Header_Set. rewrite lookup_insert_ne; [exact Huser|].
      intros Heq. apply Hct; auto.
    - exact Huser. }
  split; [exact Hsent|]. unfold Header_Get. rewrite Hsent. reflexivity.
Qed.

End Coverage.

(** * The further properties at concrete calls *)

Section CoverageWitnesses.

Local Existing Instance Sample.platform.

Import Sample.

(** A GET of a host the sample transport does not know. *)
Lemma transport_failure_outcome_witness :
  let r := call GET defaultClient Background "https://nowhere/" Nil
             (Ptr 1%positive) [WithStatus (Some 2%positive)] empty_heap in
  result_of r =
    Some (fmt_Errorf ("failed to make " +:+ verb_name GET +:+ " request")
            (errors_New "dial tcp: lookup failed: no such host"))
  /\ unmarshalled (events_of r) = []
  /\ closed (events_of r) = []
  /\ received (events_of r) = []
  /\ heap_of r = heap_after_options [WithStatus (Some 2%positive)] empty_heap.
Proof.
  apply (transport_failure_outcome GET defaultClient Background
           "https://nowhere/" Nil (Ptr 1%positive)
           [WithStatus (Some 2%positive)] empty_heap DefaultClient
           (request "GET" "https://nowhere/" [] ∅)).
  - discriminate.
  - vm_compute. repeat constructor.
Defined.

(** A DELETE under a nil context. *)
Lemma construction_failure_outcome_witness :
  let r := call DELETE defaultClient None "https://example/echo" Nil
             (Ptr 1%positive) [] empty_heap in
  result_of r =
    Some (fmt_Errorf ("failed to create " +:+ verb_name DELETE +:+ " request")
            (fmt_Errorf "failed to create request"
               (errors_New "net/http: nil Context")))
  /\ dispatched (events_of r) = []
  /\ unmarshalled (events_of r) = []
  /\ closed (events_of r) = []
  /\ heap_of r = heap_after_options [] empty_heap.
Proof.
  apply (construction_failure_outcome DELETE defaultClient None
           "https://example/echo" Nil (Ptr 1%positive) [] empty_heap).
  - discriminate.
  - reflexivity.
Defined.

(** A POST that runs through all four steps. *)
Lemma call_steps_in_order_witness :
  StronglySorted lt
    (phase <$> events_of (call POST defaultClient Background
                            "https://example/echo" (Str "hi")
                            (Ptr 1%positive) [] empty_heap)).
Proof.
  apply (call_steps_in_order POST defaultClient Background
           "https://example/echo" (Str "hi") (Ptr 1%positive) [] empty_heap).
  discriminate.
Defined.

(** A GET through a transport whose body breaks off. *)
Lemma read_failure_outcome_witness :
  let c := mkClient (Some flaky) None None in
  let r := call GET c Background "https://example/echo" Nil (Ptr 1%positive)
             [] empty_heap in
  result_of r =
    Some (fmt_Errorf "failed to read response body"
            (errors_New "unexpected EOF"))
  /\ unmarshalled (events_of r) = []
  /\ closed (events_of r) = [cut_short]
  /\ heap_of r =
     heap_of (capture_status cut_short (options_of [] empty_heap)
                (heap_after_options [] empty_heap)).
Proof.
  apply (read_failure_outcome GET (mkClient (Some flaky) None None) Background
           "https://example/echo" Nil (Ptr 1%positive) [] empty_heap flaky
           (request "GET" "https://example/echo" [] ∅) cut_short).
  - discriminate.
  - vm_compute. repeat constructor.
  - reflexivity.
  - right. vm_compute. reflexivity.
Defined.

(** A GET whose body decodes. *)
Lemma decode_success_outcome_witness :
  result_of (call GET defaultClient Background
               "https://example/pokemon/pikachu" Nil (Ptr 1%positive) []
               empty_heap) = None.
Proof.
  refine (proj1 (decode_success_outcome GET defaultClient Background
                   "https://example/pokemon/pikachu" Nil (Ptr 1%positive) []
                   empty_heap (quoted (bytes_of "pikachu")) (Ptr 1%positive)
                   _ _)).
  - discriminate.
  - vm_compute. repeat constructor.
Defined.

(** A GET of a missing page with a status sink and no result sink. *)
Lemma nil_result_outcome_witness :
  unmarshalled
    (events_of (call GET defaultClient Background "https://example/missing"
                  Nil Nil [WithStatus (Some 2%positive)] empty_heap)) = [].
Proof.
  refine (proj1 (nil_result_outcome GET defaultClient Background
                   "https://example/missing" Nil
                   [WithStatus (Some 2%positive)] empty_heap _)).
  discriminate.
Defined.

Lemma closed_what_was_received_witness :
  let r := call GET defaultClient Background "https://example/missing" Nil
             (Ptr 1%positive) [] empty_heap in
  closed (events_of r) = received (events_of r)
  /\ (length (received (events_of r)) <= 1)%nat.
Proof.
  apply (closed_what_was_received GET defaultClient Background
           "https://example/missing" Nil (Ptr 1%positive) [] empty_heap).
  discriminate.
Defined.

Lemma marshal_invocations_witness :
  marshalled
    (events_of (call PATCH defaultClient Background "https://example/echo"
                  (Str "hi") (Ptr 1%positive) [] empty_heap))
  = if is_nil (Str "hi") then [] else [Str "hi"].
Proof.
  apply (marshal_invocations PATCH defaultClient Background
           "https://example/echo" (Str "hi") (Ptr 1%positive) [] empty_heap).
  discriminate.
Defined.

Lemma success_needs_response_witness :
  let r := call GET defaultClient Background
             "https://example/pokemon/pikachu" Nil (Ptr 1%positive) []
             empty_heap in
  exists t req resp,
    EvDo t req (inl resp) ∈ events_of r
    /\ closed (events_of r) = [resp]
    /\ (Status (options_of [] empty_heap) = None ->
        http.StatusCode resp < 400).
Proof.
  apply (success_needs_response GET defaultClient Background
           "https://example/pokemon/pikachu" Nil (Ptr 1%positive) []
           empty_heap).
  - discriminate.
  - vm_compute. reflexivity.
Defined.

Lemma errors_have_context_witness :
  call_error GET (errors_New ("HTTP error: " +:+ http.Status not_found)).
Proof.
  apply (errors_have_context GET defaultClient Background
           "https://example/missing" Nil (Ptr 1%positive) [] empty_heap).
  - discriminate.
  - vm_compute. reflexivity.
Defined.

Lemma dispatched_request_fields_witness :
  let req := request "POST" "https://example/echo" (quoted (bytes_of "hi"))
               {["Content-Type" := ["application/json"]]} in
  http.Method req = verb_name POST
  /\ http.URL req = "https://example/echo"
  /\ http.Ctx req = Background
  /\ http.Body req =
     (if is_nil (Str "hi") then []
      else (result_of (marshal defaultClient (Str "hi")
                         (heap_after_options [] empty_heap))).1)
  /\ Background <> None.
Proof.
  apply (dispatched_request_fields POST defaultClient Background
           "https://example/echo" (Str "hi") (Ptr 1%positive) [] empty_heap
           DefaultClient
           (request "POST" "https://example/echo" (quoted (bytes_of "hi"))
              {["Content-Type" := ["application/json"]]})
           (inl (ok (quoted (bytes_of "hi"))))).
  - discriminate.
  - vm_compute. repeat constructor.
Defined.

(** [WithHeader] and [WithStatus] over a store that holds a map of the
    caller. *)
Lemma options_leave_caller_maps_witness :
  let opts := [WithHeader "A" "1"; WithStatus (Some 2%positive)] in
  (forall l, l ∈ dom (maps caller_heap) ->
     maps (heap_of (buildOptions opts caller_heap)) !! l
     = maps caller_heap !! l)
  /\ vars (heap_of (buildOptions opts caller_heap)) = vars caller_heap.
Proof.
  apply (options_leave_caller_maps
           [WithHeader "A" "1"; WithStatus (Some 2%positive)] caller_heap).
  repeat constructor.
Defined.

Lemma header_options_commute_witness :
  apply_options [WithHeader "A" "1"; WithHeader "B" "2"] zero_Options
    empty_heap
  = apply_options [WithHeader "B" "2"; WithHeader "A" "1"] zero_Options
      empty_heap.
Proof.
  refine (proj1 (header_options_commute [] [] "A" "1" "B" "2" zero_Options
                   empty_heap _)).
  discriminate.
Defined.

(** One header named twice under two spellings: one value arrives. *)
Lemma headers_are_single_valued_witness :
  exists value, ["2"] = [value].
Proof.
  apply (headers_are_single_valued GET defaultClient Background
           "https://example/pokemon/pikachu" Nil (Ptr 1%positive)
           [WithHeader "x-a" "1"; WithHeader "X-A" "2"] empty_heap
           DefaultClient
           (request "GET" "https://example/pokemon/pikachu" []
              {["X-A" := ["2"]]})
           (inl (ok (quoted (bytes_of "pikachu")))) ltac:(discriminate)
           ltac:(vm_compute; repeat constructor) "X-A" ["2"]).
  vm_compute. reflexivity.
Defined.

(** A header given under a lower-case name arrives under its canonical
    name. *)
Lemma option_header_is_sent_witness :
  let req := request "GET" "https://example/pokemon/pikachu" []
               {["X-Token" := ["abc"]]} in
  http.Header req !! CanonicalMIMEHeaderKey "x-token" = Some ["abc"]
  /\ Header_Get (http.Header req) "x-token" = "abc".
Proof.
  apply (option_header_is_sent GET defaultClient Background
           "https://example/pokemon/pikachu" Nil (Ptr 1%positive)
           [WithHeader "x-token" "abc"] empty_heap DefaultClient
           (request "GET" "https://example/pokemon/pikachu" []
              {["X-Token" := ["abc"]]})
           (inl (ok (quoted (bytes_of "pikachu"))))).
  - discriminate.
  - vm_compute. repeat constructor.
  - vm_compute. reflexivity.
  - intros k Hk _.
    replace (map_entries
               (Headers (options_of [WithHeader "x-token" "abc"] empty_heap))
               (heap_after_options [WithHeader "x-token" "abc"] empty_heap))
      with ({["x-token" := "abc"]} : gmap string string) in Hk
      by (vm_compute; reflexivity).
    apply elem_of_dom in Hk as [v Hv].
    apply lookup_singleton_Some in Hv as [<- _]. reflexivity.
  - discriminate.
Defined.

End CoverageWitnesses.
